(** * Order lookup service (app.js): shallow embedding and verification

    The development follows [app.js]: the two lookup strategies
    [searchOrdersByEmail] and [searchOrdersByPhone], the two inline
    normalisers they end with, the [/get_orders] handler and the result
    cache it talks to.

    Conventions.
    - A JavaScript string is a [string]; every character is one code unit
      in the range 0..255 (header values reach the program decoded as
      latin-1, and the request fields are taken in the same range).
    - A JavaScript number that the program only adds up (a quantity) is a
      [Z]; a value that may be [null] or [undefined] is an [option].
    - Fields the program dereferences without a guard are modelled as
      present: a missing one raises a TypeError before any summary is
      produced.
    - The network and the clock are a [World] threaded through the calls;
      a call may answer, throw, or never come back. *)

From Stdlib Require Import ZArith Ascii String List Sorted Permutation Lia.
From stdpp Require Import gmap strings list fin_maps pretty.

Local Open Scope Z_scope.

(* ===================================================================== *)
(** ** JavaScript built-ins used by the program *)
(* ===================================================================== *)

Module Js.

(** [ToBoolean] on a string: only the empty string is falsy. *)
Definition truthy (s : string) : bool :=
  match s with
  | EmptyString => false
  | String _ _ => true
  end.

(** [a || b] where [a] is a string or absent and [b] is a string. *)
Definition or_default (a : option string) (b : string) : string :=
  match a with
  | Some s => if truthy s then s else b
  | None => b
  end.

Definition code (c : ascii) : N := N_of_ascii c.

Definition dquote : ascii := ascii_of_N 34.

(** The class [\d]. *)
Definition is_digit (c : ascii) : bool :=
  ((48 <=? code c) && (code c <=? 57))%N.

(** The class [\s] restricted to code units below 256: TAB, LF, VT, FF,
    CR, SPACE and NO-BREAK SPACE. *)
Definition is_space (c : ascii) : bool :=
  let n := code c in
  ((9 <=? n) && (n <=? 13) || (n =? 32) || (n =? 160))%N.

Fixpoint string_filter (p : ascii -> bool) (s : string) : string :=
  match s with
  | EmptyString => EmptyString
  | String c s' =>
      if p c then String c (string_filter p s') else string_filter p s'
  end.

(** [s.replace(/\D/g, '')]: every non-digit is dropped. *)
Definition replace_non_digits (s : string) : string :=
  string_filter is_digit s.

(** *** encodeURIComponent *)

Definition hex_digit (n : N) : ascii :=
  if (n <? 10)%N then ascii_of_N (48 + n) else ascii_of_N (55 + n).

Definition percent (b : N) : string :=
  String "%" (String (hex_digit (b / 16)) (String (hex_digit (b mod 16)) EmptyString)).

Definition is_alpha (c : ascii) : bool :=
  let n := code c in
  ((65 <=? n) && (n <=? 90) || (97 <=? n) && (n <=? 122))%N.

(** The characters [encodeURIComponent] leaves alone:
    letters, digits and [- _ . ! ~ * ' ( )]. *)
Definition uri_unreserved (c : ascii) : bool :=
  is_alpha c || is_digit c ||
  existsb (fun m => (code c =? m)%N)
    [45; 95; 46; 33; 126; 42; 39; 40; 41]%N.

(** One code unit: kept, or percent-encoded through its UTF-8 bytes
    (one byte below 128, two bytes from 128 to 255). *)
Definition encode_unit (c : ascii) : string :=
  let n := code c in
  if uri_unreserved c then String c EmptyString
  else if (n <? 128)%N then percent n
  else String.append (percent (192 + n / 64)) (percent (128 + n mod 64)).

Fixpoint encodeURIComponent (s : string) : string :=
  match s with
  | EmptyString => EmptyString
  | String c s' => String.append (encode_unit c) (encodeURIComponent s')
  end.

(** *** The pattern [/<([^>]+)>;\s*rel="next"/]

    [String.prototype.match] with a pattern without the [g] flag returns
    the leftmost match. At a fixed start the pattern has at most one way
    to match: [[^>]+] is greedy and must be followed by [>], so it takes
    the whole run up to the first [>]; [\s*] must be followed by [r],
    which is not a space, so it takes the whole run of spaces. *)

(** The longest prefix without [>] and what follows it. *)
Fixpoint span_not_gt (s : string) : string * string :=
  match s with
  | EmptyString => (EmptyString, EmptyString)
  | String c s' =>
      if Ascii.eqb c ">" then (EmptyString, s)
      else let '(g, r) := span_not_gt s' in (String c g, r)
  end.

Fixpoint skip_spaces (s : string) : string :=
  match s with
  | EmptyString => EmptyString
  | String c s' => if is_space c then skip_spaces s' else s
  end.

Definition rel_next : string :=
  String.append "rel=" (String dquote (String.append "next" (String dquote EmptyString))).

(** The pattern anchored at the first character of [s]; the result is
    capture group 1. *)
Definition match_here (s : string) : option string :=
  match s with
  | String c s1 =>
      if Ascii.eqb c "<" then
        let '(g, r) := span_not_gt s1 in
        match g, r with
        | String _ _, String c1 (String c2 r2) =>
            if Ascii.eqb c1 ">" && Ascii.eqb c2 ";" &&
               String.prefix rel_next (skip_spaces r2)
            then Some g else None
        | _, _ => None
        end
      else None
  | EmptyString => None
  end.

(** [linkHeader.match(/<([^>]+)>;\s*rel="next"/)], reduced to [match[1]];
    [None] is the [null] of a failed match. *)
Fixpoint match_next (s : string) : option string :=
  match match_here s with
  | Some g => Some g
  | None =>
      match s with
      | EmptyString => None
      | String _ s' => match_next s'
      end
  end.

Fixpoint string_forall (p : ascii -> bool) (s : string) : bool :=
  match s with
  | EmptyString => true
  | String c s' => p c && string_forall p s'
  end.

(** The pattern read as a set of strings: [s] begins with [<], a non-empty
    group [g] free of [>], then [>;], any run of spaces, and [rel="next"]. *)
Definition matches_here (s g : string) : Prop :=
  exists spaces tail,
    s = String "<" (String.append g
          (String ">" (String ";" (String.append spaces (String.append rel_next tail))))) /\
    g <> EmptyString /\
    string_forall (fun c => negb (Ascii.eqb c ">")) g = true /\
    string_forall is_space spaces = true.

(** *** Array.prototype.sort with a comparison function

    The comparison function returns a number or NaN ([None]); NaN counts
    as 0. The language requires the sort to be stable, and for a
    consistent comparison function the result is then determined: it is
    the one stable sorted rearrangement, which insertion from the right
    computes. With an inconsistent comparison function the order is left
    to the engine, and nothing below is claimed for that case. *)

Section Sort.
Context {A : Type} (comparefn : A -> A -> option Z).

(** [x] stays in front of [y] unless the comparison is positive. *)
Definition before (x y : A) : bool :=
  match comparefn x y with
  | Some v => v <=? 0
  | None => true
  end.

Fixpoint insert_sorted (x : A) (l : list A) : list A :=
  match l with
  | [] => [x]
  | y :: l' => if before x y then x :: y :: l' else y :: insert_sorted x l'
  end.

Fixpoint sort (l : list A) : list A :=
  match l with
  | [] => []
  | x :: l' => insert_sorted x (sort l')
  end.
End Sort.

(** [arr.reduce(f, init)]. *)
Definition reduce {A B : Type} (f : B -> A -> B) (init : B) (l : list A) : B :=
  fold_left f l init.

End Js.

(* ===================================================================== *)
(** ** Data model *)
(* ===================================================================== *)

(** A shipping address is passed through untouched: field names to values. *)
Definition Address : Type := list (string * string).

(** The objects of the REST endpoint [/orders.json]. *)
Module Rest.
Record LineItem := {
  title : string;
  quantity : Z;
  price : string
}.

Record Fulfillment := {
  tracking_number : option string;
  tracking_company : option string;
  tracking_url : option string
}.

Record Order := {
  name : string;
  created_at : string;
  total_price : string;
  fulfillment_status : option string;
  line_items : list LineItem;
  shipping_address : option Address;
  fulfillments : option (list Fulfillment)
}.

(** What the program reads of an axios response: [response.data.orders]
    and [response.headers['link']]. *)
Record Response := {
  data_orders : list Order;
  headers_link : option string
}.
End Rest.

(** The objects of the GraphQL endpoint. *)
Module Graph.
Record Edge (A : Type) := { node : A }.
Arguments node {A} _.

Record Connection (A : Type) := { edges : list (Edge A) }.
Arguments edges {A} _.

Record Money := {
  amount : string;
  currencyCode : option string
}.

Record MoneySet := { shopMoney : Money }.

Record LineItem := {
  li_name : string;
  quantity : Z;
  originalUnitPriceSet : MoneySet
}.

Record TrackingInfo := {
  company : option string;
  number : option string;
  url : option string
}.

Record Fulfillment := { trackingInfo : list TrackingInfo }.

Record Customer := {
  c_id : string;
  displayName : option string;
  email : option string
}.

(** An order node as the order query selects it. *)
Record OrderNode := {
  id : string;
  name : string;
  createdAt : string;
  totalPriceSet : MoneySet;
  displayFulfillmentStatus : option string;
  lineItems : Connection LineItem;
  shippingAddress : option Address;
  fulfillments : option (list Fulfillment)
}.

(** [{...edge.node, customerName, customerEmail}]. *)
Record Order := {
  order_node : OrderNode;
  customerName : option string;
  customerEmail : option string
}.

(** The arguments the two query documents and their variables carry. *)
Record CustomerQuery := {
  cq_first : nat;
  cq_query : string
}.

Record OrderQuery := {
  oq_customerId : string;
  oq_first : nat;
  oq_lineItems_first : nat;
  oq_fulfillments_first : nat
}.
End Graph.

(** The objects the service answers with. *)
Record TrackingInfo := {
  tracking_number : option string;
  tracking_company : option string;
  tracking_url : option string
}.

Record LineItem := {
  title : string;
  quantity : Z;
  price : string
}.

(** [currency_code], [customer_name] and [customer_email] exist only in the
    summaries of a phone lookup; [None] stands for a missing or null one. *)
Record OrderSummary := {
  order_number : string;
  created_at : string;
  total_price : string;
  currency_code : option string;
  fulfillment_status : option string;
  items_count : Z;
  shipping_address : option Address;
  tracking_info : option TrackingInfo;
  line_items : list LineItem;
  customer_name : option string;
  customer_email : option string
}.

(** The sum of [line_items[*].quantity]. *)
Definition quantity_sum (l : list LineItem) : Z :=
  fold_right (fun item acc => quantity item + acc) 0 l.

(* ===================================================================== *)
(** ** The two normalisers *)
(* ===================================================================== *)

(** The callback of [allOrders.map] at the end of [searchOrdersByEmail]. *)
Definition restSummary (order : Rest.Order) : OrderSummary :=
  {| order_number := Rest.name order;
     created_at := Rest.created_at order;
     total_price := Rest.total_price order;
     currency_code := None;
     fulfillment_status :=
       Some (Js.or_default (Rest.fulfillment_status order) "unfulfilled");
     items_count :=
       Js.reduce (fun sum item => sum + Rest.quantity item) 0 (Rest.line_items order);
     shipping_address := Rest.shipping_address order;
     tracking_info :=
       match Rest.fulfillments order with
       | Some (f0 :: _) =>
           Some {| tracking_number := Rest.tracking_number f0;
                   tracking_company := Rest.tracking_company f0;
                   tracking_url := Rest.tracking_url f0 |}
       | Some [] | None => None
       end;
     line_items :=
       map (fun item => {| title := Rest.title item;
                           quantity := Rest.quantity item;
                           price := Rest.price item |})
           (Rest.line_items order);
     customer_name := None;
     customer_email := None |}.

(** The callback of [allOrders.map] at the end of [searchOrdersByPhone]. *)
Definition graphSummary (order : Graph.Order) : OrderSummary :=
  let o := Graph.order_node order in
  {| order_number := Graph.name o;
     created_at := Graph.createdAt o;
     total_price := Graph.amount (Graph.shopMoney (Graph.totalPriceSet o));
     currency_code := Graph.currencyCode (Graph.shopMoney (Graph.totalPriceSet o));
     fulfillment_status := Graph.displayFulfillmentStatus o;
     items_count :=
       Js.reduce (fun sum edge => sum + Graph.quantity (Graph.node edge)) 0
                 (Graph.edges (Graph.lineItems o));
     shipping_address := Graph.shippingAddress o;
     tracking_info :=
       match Graph.fulfillments o with
       | Some (f0 :: _) =>
           match Graph.trackingInfo f0 with
           | t0 :: _ =>
               Some {| tracking_company := Graph.company t0;
                       tracking_number := Graph.number t0;
                       tracking_url := Graph.url t0 |}
           | [] => None
           end
       | Some [] | None => None
       end;
     line_items :=
       map (fun edge =>
              {| title := Graph.li_name (Graph.node edge);
                 quantity := Graph.quantity (Graph.node edge);
                 price := Graph.amount (Graph.shopMoney
                            (Graph.originalUnitPriceSet (Graph.node edge))) |})
           (Graph.edges (Graph.lineItems o));
     customer_name := Graph.customerName order;
     customer_email := Graph.customerEmail order |}.

(* ===================================================================== *)
(** ** The result cache

    [cache] is an instance of the [node-cache] package (required on line 3
    of [app.js], constructed on line 36 with [stdTTL: 3600] and
    [maxKeys: 1000]). The package is a dependency and not a file of the
    repository; [get], [set], [del] and the periodic check below follow its
    published behaviour (release 5): an entry stores its value and the
    instant it dies, a read of a dead entry deletes it, and a [set] on a
    store that already holds [maxKeys] keys throws [ECACHEFULL] and stores
    nothing. *)
(* ===================================================================== *)

Module NodeCache.
Record Options := {
  stdTTL : Z;
  maxKeys : Z
}.

Record Entry (V : Type) := {
  t : Z;
  v : V
}.
Arguments t {V} _.
Arguments v {V} _.

Record Cache (V : Type) := {
  options : Options;
  data : gmap string (Entry V);
  stats_keys : Z
}.
Arguments options {V} _.
Arguments data {V} _.
Arguments stats_keys {V} _.

Inductive Result (A : Type) :=
| Ret (a : A)
| Raise (code : string).
Arguments Ret {A} _.
Arguments Raise {A} _.

Section Ops.
Context {V : Type}.

Definition create (opts : Options) : Cache V :=
  {| options := opts; data := ∅; stats_keys := 0 |}.

(** [_wrap] without an explicit ttl: the entry lives [stdTTL] seconds
    from [now] (milliseconds); a [stdTTL] of 0 never dies. *)
Definition wrap (c : Cache V) (now : Z) (value : V) : Entry V :=
  {| t := if stdTTL (options c) =? 0 then 0
          else now + stdTTL (options c) * 1000;
     v := value |}.

Definition del (key : string) (c : Cache V) : Cache V :=
  match data c !! key with
  | Some _ =>
      {| options := options c;
         data := delete key (data c);
         stats_keys := stats_keys c - 1 |}
  | None => c
  end.

(** [_check]: a dead entry is deleted and reported as such. *)
Definition check (key : string) (e : Entry V) (now : Z) (c : Cache V)
  : Cache V * bool :=
  if negb (t e =? 0) && (t e <? now) then (del key c, false)
  else (c, true).

Definition get (key : string) (now : Z) (c : Cache V) : Cache V * option V :=
  match data c !! key with
  | Some e =>
      let '(c', alive) := check key e now c in
      if alive then (c', Some (v e)) else (c', None)
  | None => (c, None)
  end.

Definition set (key : string) (value : V) (now : Z) (c : Cache V)
  : Cache V * Result bool :=
  if (maxKeys (options c) >? -1) && (stats_keys c >=? maxKeys (options c))
  then (c, Raise "ECACHEFULL")
  else
    let existent := bool_decide (is_Some (data c !! key)) in
    ({| options := options c;
        data := <[key := wrap c now value]> (data c);
        stats_keys := if existent then stats_keys c else stats_keys c + 1 |},
     Ret true).

(** [_checkData], run by the package's timer: every entry is checked. *)
Definition checkData (now : Z) (c : Cache V) : Cache V :=
  fold_left (fun acc kv => fst (check (fst kv) (snd kv) now acc))
            (map_to_list (data c)) c.
End Ops.
End NodeCache.

(** [new NodeCache({ stdTTL: 3600, maxKeys: 1000 })]. *)
Definition cache_options : NodeCache.Options :=
  {| NodeCache.stdTTL := 3600; NodeCache.maxKeys := 1000 |}.

Abbreviation Cache := (NodeCache.Cache (list OrderSummary)).

Definition empty_cache : Cache := NodeCache.create cache_options.

(* ===================================================================== *)
(** ** Effects *)
(* ===================================================================== *)

Inductive Error :=
| UpstreamError (msg : string)
| CacheError (code : string).

(** How an awaited call ends: with a value, with an exception, or not at
    all. *)
Inductive Outcome (A : Type) :=
| Done (a : A)
| Throw (e : Error)
| Pending.
Arguments Done {A} _.
Arguments Throw {A} _.
Arguments Pending {A}.

(** The remote service and the clock. [shopifyApi_get] is
    [shopifyApi.get(url)]; the two [request_*] are [graphqlClient.request]
    with the customer query and with the order query. [Date_parse] is the
    time value of [new Date(s)], [None] for an invalid date. *)
Class Upstream (World : Type) := {
  Date_now : World -> Z;
  Date_parse : string -> option Z;
  shopifyApi_get : string -> World -> World * Outcome Rest.Response;
  request_customers :
    Graph.CustomerQuery -> World ->
    World * Outcome (Graph.Connection Graph.Customer);
  request_orders :
    Graph.OrderQuery -> World ->
    World * Outcome (Graph.Connection Graph.OrderNode)
}.

(** What the program did, in order. *)
Inductive Event :=
| EvGet (url : string)
| EvCustomers (q : Graph.CustomerQuery)
| EvOrders (q : Graph.OrderQuery)
| EvCacheGet (key : string)
| EvCacheSet (key : string).

Definition is_upstream (e : Event) : bool :=
  match e with
  | EvGet _ | EvCustomers _ | EvOrders _ => true
  | EvCacheGet _ | EvCacheSet _ => false
  end.

Record State (World : Type) := {
  world : World;
  cache : Cache;
  trace : list Event
}.
Arguments world {World} _.
Arguments cache {World} _.
Arguments trace {World} _.

Definition M (World A : Type) : Type := State World -> State World * Outcome A.

Definition ret {World A : Type} (a : A) : M World A := fun st => (st, Done a).

Definition bind {World A B : Type} (m : M World A) (k : A -> M World B) : M World B :=
  fun st =>
    match m st with
    | (st', Done a) => k a st'
    | (st', Throw e) => (st', Throw e)
    | (st', Pending) => (st', Pending)
    end.

Definition pending {World A : Type} : M World A := fun st => (st, Pending).

(** [try { m } catch (error) { h error }]. *)
Definition try_catch {World A : Type} (m : M World A) (h : Error -> M World A)
  : M World A :=
  fun st =>
    match m st with
    | (st', Throw e) => h e st'
    | r => r
    end.

Notation "'let*' x ':=' m 'in' k" := (bind m (fun x => k))
  (at level 10, x binder, m at level 100, k at level 200).

(** An upstream call: logged, then answered by the world. *)
Definition call {World A : Type} (e : Event) (f : World -> World * Outcome A)
  : M World A :=
  fun st =>
    let '(w', r) := f (world st) in
    ({| world := w'; cache := cache st; trace := trace st ++ [e] |}, r).

Section Program.
Context {World : Type} `{!Upstream World}.

Definition cache_get (key : string) : M World (option (list OrderSummary)) :=
  fun st =>
    let '(c', r) := NodeCache.get key (Date_now (world st)) (cache st) in
    ({| world := world st; cache := c'; trace := trace st ++ [EvCacheGet key] |},
     Done r).

Definition cache_set (key : string) (value : list OrderSummary) : M World bool :=
  fun st =>
    let '(c', r) := NodeCache.set key value (Date_now (world st)) (cache st) in
    ({| world := world st; cache := c'; trace := trace st ++ [EvCacheSet key] |},
     match r with
     | NodeCache.Ret b => Done b
     | NodeCache.Raise code => Throw (CacheError code)
     end).

(** *** searchOrdersByEmail *)

Definition first_page_url (email : string) : string :=
  String.append "/orders.json?status=any&email="
    (String.append (Js.encodeURIComponent email) "&limit=250").

(** The continuation the loop body leaves in [nextPageUrl]. *)
Definition next_page (response : Rest.Response) : option string :=
  let linkHeader := Rest.headers_link response in
  match linkHeader with
  | Some h => if Js.truthy h then Js.match_next h else None
  | None => None
  end.

(** [while (nextPageUrl) { ... }]; [fuel] bounds the number of turns, and
    a loop that wants more never returns. *)
Fixpoint email_loop (fuel : nat) (allOrders : list Rest.Order)
         (nextPageUrl : option string) : M World (list Rest.Order) :=
  match nextPageUrl with
  | Some url =>
      if Js.truthy url then
        match fuel with
        | O => pending
        | S fuel' =>
            let* response := call (EvGet url) (shopifyApi_get url) in
            let orders := Rest.data_orders response in
            let allOrders := allOrders ++ orders in
            email_loop fuel' allOrders (next_page response)
        end
      else ret allOrders
  | None => ret allOrders
  end.

Definition searchOrdersByEmail (fuel : nat) (email : string)
  : M World (list OrderSummary) :=
  let* allOrders := email_loop fuel [] (Some (first_page_url email)) in
  ret (map restSummary allOrders).

(** *** searchOrdersByPhone *)

Definition customerQuery (phone : string) : Graph.CustomerQuery :=
  let normalizedPhone := Js.replace_non_digits phone in
  {| Graph.cq_first := 250;
     Graph.cq_query := String.append "phone:" normalizedPhone |}.

Definition orderQuery (customerId : string) : Graph.OrderQuery :=
  {| Graph.oq_customerId := customerId;
     Graph.oq_first := 250;
     Graph.oq_lineItems_first := 10;
     Graph.oq_fulfillments_first := 1 |}.

Definition attach (customer : Graph.Customer) (edge : Graph.Edge Graph.OrderNode)
  : Graph.Order :=
  {| Graph.order_node := Graph.node edge;
     Graph.customerName := Graph.displayName customer;
     Graph.customerEmail := Graph.email customer |}.

(** [for (const customer of customers) { ... }]. *)
Fixpoint customer_loop (customers : list Graph.Customer)
         (allOrders : list Graph.Order) : M World (list Graph.Order) :=
  match customers with
  | [] => ret allOrders
  | customer :: rest =>
      let q := orderQuery (Graph.c_id customer) in
      let* orderData := call (EvOrders q) (request_orders q) in
      let customerOrders := map (attach customer) (Graph.edges orderData) in
      customer_loop rest (allOrders ++ customerOrders)
  end.

(** [(a, b) => new Date(b.createdAt) - new Date(a.createdAt)]. *)
Definition by_created_desc (a b : Graph.Order) : option Z :=
  match Date_parse (Graph.createdAt (Graph.order_node b)),
        Date_parse (Graph.createdAt (Graph.order_node a)) with
  | Some tb, Some ta => Some (tb - ta)
  | _, _ => None
  end.

(** The orders of all matching customers, customer after customer, as
    they stand before the sort. *)
Definition aggregateOrders (phone : string) : M World (list Graph.Order) :=
  let q := customerQuery phone in
  let* customerData := call (EvCustomers q) (request_customers q) in
  let customers := map Graph.node (Graph.edges customerData) in
  customer_loop customers [].

Definition searchOrdersByPhone (phone : string) : M World (list OrderSummary) :=
  let* allOrders := aggregateOrders phone in
  let allOrders := Js.sort by_created_desc allOrders in
  ret (map graphSummary allOrders).

(** *** POST /get_orders *)

Inductive Body :=
| Orders (orders : list OrderSummary)
| ErrorMessage (error : string).

Record HttpResponse := {
  status : Z;
  body : Body
}.

Definition json (orders : list OrderSummary) : HttpResponse :=
  {| status := 200; body := Orders orders |}.

Definition cacheKey (contact_type contact_info : string) : string :=
  String.append contact_type (String.append "-" contact_info).

(** Lines 284 to 291: what the handler does once [orders] is assigned. *)
Definition store_and_send (cacheKey : string) (orders : list OrderSummary)
  : M World HttpResponse :=
  let* _ := (if Z.of_nat (length orders) <=? 1000
             then (let* _ := cache_set cacheKey orders in ret tt)
             else ret tt) in
  ret (json orders).

Definition get_orders (fuel : nat) (contact_type contact_info : string)
  : M World HttpResponse :=
  let cacheKey := cacheKey contact_type contact_info in
  try_catch
    (let* cachedResult := cache_get cacheKey in
     match cachedResult with
     | Some cached => ret (json cached)
     | None =>
         if String.eqb contact_type "email" then
           let* orders := searchOrdersByEmail fuel contact_info in
           store_and_send cacheKey orders
         else if String.eqb contact_type "phone" then
           let* orders := searchOrdersByPhone contact_info in
           store_and_send cacheKey orders
         else
           ret {| status := 400; body := ErrorMessage "Invalid contact type" |}
     end)
    (fun error =>
       ret {| status := 500;
              body := ErrorMessage
                "An error occurred while fetching the order information" |}).
End Program.

(** A page sequence of the REST endpoint: the world answers [url] with a
    response, the response names the next url, and so on until a response
    names none. Each entry keeps the url it was fetched from. *)
Inductive pages_from {World : Type} `{!Upstream World}
  : World -> string -> list (string * Rest.Response) -> World -> Prop :=
| pages_last w url r w' :
    shopifyApi_get url w = (w', Done r) ->
    next_page r = None ->
    pages_from w url [(url, r)] w'
| pages_more w url r w1 url' rest w' :
    shopifyApi_get url w = (w1, Done r) ->
    next_page r = Some url' ->
    pages_from w1 url' rest w' ->
    pages_from w url ((url, r) :: rest) w'.

(** The fetches a page sequence stands for, and the orders it carries. *)
Definition fetched (pages : list (string * Rest.Response)) : list Event :=
  map (fun p => EvGet (fst p)) pages.

Definition page_orders (pages : list (string * Rest.Response)) : list Rest.Order :=
  concat (map (fun p => Rest.data_orders (snd p)) pages).

(** The order answers of the graph endpoint for a list of customers, one
    request per customer, in order. *)
Inductive orders_from {World : Type} `{!Upstream World}
  : World -> list Graph.Customer ->
    list (Graph.Customer * Graph.Connection Graph.OrderNode) -> World -> Prop :=
| orders_nil w : orders_from w [] [] w
| orders_cons w customer conn w1 rest answers w' :
    request_orders (orderQuery (Graph.c_id customer)) w = (w1, Done conn) ->
    orders_from w1 rest answers w' ->
    orders_from w (customer :: rest) ((customer, conn) :: answers) w'.

(** The orders of a sequence of answers, customer after customer and, for
    one customer, in the order of the answer; and the requests it cost. *)
Definition aggregate (answers : list (Graph.Customer * Graph.Connection Graph.OrderNode))
  : list Graph.Order :=
  concat (map (fun a => map (attach (fst a)) (Graph.edges (snd a))) answers).

Definition requested (answers : list (Graph.Customer * Graph.Connection Graph.OrderNode))
  : list Event :=
  map (fun a => EvOrders (orderQuery (Graph.c_id (fst a)))) answers.

(** The graph endpoint keeps its word on [first]: an order comes back with
    at most as many line items as the query asked for. *)
Definition honours_first {World : Type} `{!Upstream World} : Prop :=
  forall q w w' conn,
    request_orders q w = (w', Done conn) ->
    Forall (fun e =>
              (length (Graph.edges (Graph.lineItems (Graph.node e)))
               <= Graph.oq_lineItems_first q)%nat)
           (Graph.edges conn).

(** Orders by date, for any way [time] of dating an element: the comparison
    function of the sort, the test "dated [t]", and "[a] is no older than
    [b]". *)
Definition desc_by {A : Type} (time : A -> option Z) (a b : A) : option Z :=
  match time b, time a with
  | Some tb, Some ta => Some (tb - ta)
  | _, _ => None
  end.

Definition at_time {A : Type} (time : A -> option Z) (t : Z) (a : A) : bool :=
  match time a with
  | Some t' => t' =? t
  | None => false
  end.

Definition newer {A : Type} (time : A -> option Z) (a b : A) : Prop :=
  exists ta tb, time a = Some ta /\ time b = Some tb /\ tb <= ta.

(** The creation instant of a summary and of a fetched order. *)
Definition summary_time {World : Type} `{!Upstream World} (s : OrderSummary)
  : option Z := Date_parse (created_at s).

Definition order_time {World : Type} `{!Upstream World} (o : Graph.Order)
  : option Z := Date_parse (Graph.createdAt (Graph.order_node o)).

(** Every cached list is one the handler was allowed to store. *)
Definition small_values (c : Cache) : Prop :=
  forall key e, NodeCache.data c !! key = Some e ->
                Z.of_nat (length (NodeCache.v e)) <= 1000.

(** The operations the store goes through: the handler's reads and writes
    and the package's timer. *)
Inductive CacheOp :=
| OpGet (key : string) (now : Z)
| OpSet (key : string) (value : list OrderSummary) (now : Z)
| OpDel (key : string)
| OpCheck (now : Z).

Definition run_op (c : Cache) (op : CacheOp) : Cache :=
  match op with
  | OpGet key now => fst (NodeCache.get key now c)
  | OpSet key value now => fst (NodeCache.set key value now c)
  | OpDel key => NodeCache.del key c
  | OpCheck now => NodeCache.checkData now c
  end.

Definition run_ops (ops : list CacheOp) : Cache := fold_left run_op ops empty_cache.

(** The bookkeeping of the store: the key counter agrees with the entries
    held and stays within [maxKeys]. *)
Definition cache_wf (c : Cache) : Prop :=
  NodeCache.options c = cache_options /\
  NodeCache.stats_keys c = Z.of_nat (size (NodeCache.data c)) /\
  NodeCache.stats_keys c <= 1000.



(** A run that only talked to the remote service: the store is as it was
    and every new event is an upstream call. *)
Definition upstream_only {World : Type} (st st' : State World) : Prop :=
  cache st' = cache st /\
  exists evs, trace st' = trace st ++ evs /\ Forall (fun e => is_upstream e = true) evs.

(** Every store event of a run names the key [k]. *)
Definition on_key (k : string) (e : Event) : Prop :=
  match e with
  | EvCacheGet k' | EvCacheSet k' => k' = k
  | _ => True
  end.

(* ===================================================================== *)
(** ** A small shop to run the program on *)
(* ===================================================================== *)

Module Demo.
Definition T1 : string := "2024-01-01T00:00:00Z".
Definition T2 : string := "2024-01-02T00:00:00Z".
Definition T3 : string := "2024-01-03T00:00:00Z".

Definition parse (s : string) : option Z :=
  if String.eqb s T1 then Some 1704067200000
  else if String.eqb s T2 then Some 1704153600000
  else if String.eqb s T3 then Some 1704240000000
  else None.

(** *** REST side *)

Definition rest_item (title : string) (q : Z) : Rest.LineItem :=
  {| Rest.title := title; Rest.quantity := q; Rest.price := "10.00" |}.

Definition shipped : Rest.Fulfillment :=
  {| Rest.tracking_number := Some "1Z999";
     Rest.tracking_company := Some "UPS";
     Rest.tracking_url := None |}.

Definition rest_order (name created : string) (st : option string)
           (items : list Rest.LineItem) (fs : option (list Rest.Fulfillment))
  : Rest.Order :=
  {| Rest.name := name; Rest.created_at := created;
     Rest.total_price := "30.00"; Rest.fulfillment_status := st;
     Rest.line_items := items; Rest.shipping_address := None;
     Rest.fulfillments := fs |}.

Definition o1001 : Rest.Order :=
  rest_order "#1001" T1 None [rest_item "Mug" 2; rest_item "Cap" 1] (Some []).
Definition o1002 : Rest.Order :=
  rest_order "#1002" T2 (Some "fulfilled") [rest_item "Pen" 3] (Some [shipped]).
Definition o1003 : Rest.Order :=
  rest_order "#1003" T3 (Some "partial") [] None.

Definition link (url rel : string) : string :=
  String.append "<"
    (String.append url
       (String.append ">; rel="
          (String Js.dquote (String.append rel (String Js.dquote EmptyString))))).

Definition page_url (token : string) : string :=
  String.append
    "https://shop.example/admin/api/2024-01/orders.json?limit=250&page_info="
    token.

Definition page (orders : list Rest.Order) (h : option string) : Rest.Response :=
  {| Rest.data_orders := orders; Rest.headers_link := h |}.

Definition page1 : Rest.Response :=
  page [o1001] (Some (link (page_url "p2") "next")).
Definition page2 : Rest.Response :=
  page [o1002]
       (Some (String.append (link (page_url "p1") "previous")
                (String.append ", " (link (page_url "p3") "next")))).
Definition page3 : Rest.Response :=
  page [o1003] (Some (link (page_url "p2") "previous")).

(** A contact with 1001 orders, in pages of 250. *)
Definition bulk (n : nat) : list Rest.Order := repeat o1002 n.

Definition email1 : string := "a-b@example.com".
Definition email_bulk : string := "bulk@example.com".

Definition rest_table : list (string * Rest.Response) :=
  [ (first_page_url email1, page1);
    (page_url "p2", page2);
    (page_url "p3", page3);
    (first_page_url email_bulk, page (bulk 250) (Some (link (page_url "b2") "next")));
    (page_url "b2", page (bulk 250) (Some (link (page_url "b3") "next")));
    (page_url "b3", page (bulk 250) (Some (link (page_url "b4") "next")));
    (page_url "b4", page (bulk 250) (Some (link (page_url "b5") "next")));
    (page_url "b5", page (bulk 1) None) ].

Fixpoint assoc {A : Type} (k : string) (l : list (string * A)) : option A :=
  match l with
  | [] => None
  | (k', a) :: l' => if String.eqb k k' then Some a else assoc k l'
  end.

(** *** Graph side *)

Definition money (a : string) : Graph.MoneySet :=
  {| Graph.shopMoney := {| Graph.amount := a; Graph.currencyCode := Some "USD" |} |}.

Definition graph_item (n : string) (q : Z) : Graph.Edge Graph.LineItem :=
  {| Graph.node := {| Graph.li_name := n; Graph.quantity := q;
                      Graph.originalUnitPriceSet := money "5.00" |} |}.

Definition graph_node (name created : string)
           (items : list (Graph.Edge Graph.LineItem))
           (fs : option (list Graph.Fulfillment)) : Graph.OrderNode :=
  {| Graph.id := String.append "gid://shopify/Order/" name;
     Graph.name := name; Graph.createdAt := created;
     Graph.totalPriceSet := money "60.00";
     Graph.displayFulfillmentStatus := Some "FULFILLED";
     Graph.lineItems := {| Graph.edges := items |};
     Graph.shippingAddress := None;
     Graph.fulfillments := fs |}.

Definition tracked : Graph.Fulfillment :=
  {| Graph.trackingInfo :=
       [ {| Graph.company := Some "DHL"; Graph.number := Some "JD01";
            Graph.url := None |} ] |}.

Definition untracked : Graph.Fulfillment := {| Graph.trackingInfo := [] |}.

Definition ann : Graph.Customer :=
  {| Graph.c_id := "gid://shopify/Customer/1";
     Graph.displayName := Some "Ann"; Graph.email := Some "ann@example.com" |}.
Definition bob : Graph.Customer :=
  {| Graph.c_id := "gid://shopify/Customer/2";
     Graph.displayName := Some "Bob"; Graph.email := None |}.
Definition cat : Graph.Customer :=
  {| Graph.c_id := "gid://shopify/Customer/3";
     Graph.displayName := Some "Cat"; Graph.email := None |}.
Definition dan : Graph.Customer :=
  {| Graph.c_id := "gid://shopify/Customer/4";
     Graph.displayName := Some "Dan"; Graph.email := None |}.

(** What the shop holds; order #2001 has twelve line items. *)
Definition store : list (string * list Graph.OrderNode) :=
  [ (Graph.c_id ann,
     [ graph_node "#2001" T1 (repeat (graph_item "Sock" 2) 12) (Some [tracked]);
       graph_node "#2003" T3 [graph_item "Hat" 1] (Some [untracked]) ]);
    (Graph.c_id bob,
     [ graph_node "#2002" T2 [graph_item "Bag" 4] None ]);
    (Graph.c_id cat,
     [ graph_node "#3001" T2 [graph_item "Tie" 1] (Some []);
       graph_node "#3002" T2 [graph_item "Tie" 2] (Some []) ]);
    (Graph.c_id dan,
     [ graph_node "#3003" T2 [graph_item "Tie" 3] (Some []);
       graph_node "#3004" T3 [graph_item "Tie" 4] (Some []) ]) ].

Definition phone1 : string := "+1 (555) 0100".
Definition phone2 : string := "555-0111".

Definition customers_table : list (string * list Graph.Customer) :=
  [ ("phone:15550100", [ann; bob]);
    ("phone:5550111", [cat; dan]) ].

Definition connection {A : Type} (l : list A) : Graph.Connection A :=
  {| Graph.edges := map (fun a => {| Graph.node := a |}) l |}.

(** The endpoint cuts every connection at the [first] it was asked for. *)
Definition select (q : Graph.OrderQuery) (n : Graph.OrderNode) : Graph.OrderNode :=
  {| Graph.id := Graph.id n; Graph.name := Graph.name n;
     Graph.createdAt := Graph.createdAt n;
     Graph.totalPriceSet := Graph.totalPriceSet n;
     Graph.displayFulfillmentStatus := Graph.displayFulfillmentStatus n;
     Graph.lineItems :=
       {| Graph.edges :=
            firstn (Graph.oq_lineItems_first q) (Graph.edges (Graph.lineItems n)) |};
     Graph.shippingAddress := Graph.shippingAddress n;
     Graph.fulfillments :=
       option_map (firstn (Graph.oq_fulfillments_first q)) (Graph.fulfillments n) |}.

(** An order node that came without a display status, as a customer's order. *)
Definition no_status_order : Graph.Order :=
  {| Graph.order_node :=
       {| Graph.id := "gid://shopify/Order/9"; Graph.name := "#9001";
          Graph.createdAt := T1; Graph.totalPriceSet := money "5.00";
          Graph.displayFulfillmentStatus := None;
          Graph.lineItems := {| Graph.edges := [graph_item "Pin" 1] |};
          Graph.shippingAddress := None;
          Graph.fulfillments := Some [] |};
     Graph.customerName := Some "Ann";
     Graph.customerEmail := None |}.

(** The world is the clock, in milliseconds; a call takes 100 of them. *)
Definition World : Type := Z.

Definition get (url : string) (w : World) : World * Outcome Rest.Response :=
  (w + 100,
   match assoc url rest_table with
   | Some r => Done r
   | None => Throw (UpstreamError "Request failed with status code 404")
   end).

Definition customers (q : Graph.CustomerQuery) (w : World)
  : World * Outcome (Graph.Connection Graph.Customer) :=
  (w + 100,
   Done (connection
           (firstn (Graph.cq_first q)
                   (default [] (assoc (Graph.cq_query q) customers_table))))).

Definition orders_answer (q : Graph.OrderQuery) : Graph.Connection Graph.OrderNode :=
  connection
    (map (select q)
         (firstn (Graph.oq_first q)
                 (default [] (assoc (Graph.oq_customerId q) store)))).

Definition orders (q : Graph.OrderQuery) (w : World)
  : World * Outcome (Graph.Connection Graph.OrderNode) :=
  (w + 100, Done (orders_answer q)).

Definition answer_for (c : Graph.Customer)
  : Graph.Customer * Graph.Connection Graph.OrderNode :=
  (c, orders_answer (orderQuery (Graph.c_id c))).

#[global] Instance shop : Upstream World :=
  {| Date_now := fun w => w;
     Date_parse := parse;
     shopifyApi_get := get;
     request_customers := customers;
     request_orders := orders |}.

Definition start : State World :=
  {| world := 0; cache := empty_cache; trace := [] |}.

(** The state a first lookup of [email1] leaves behind. *)
Definition after_email1 : State World :=
  fst (get_orders 10 "email" email1 start).

(** The 1001 summaries of [email_bulk] and the state their lookup leaves. *)
Definition bulk_orders : list OrderSummary := map restSummary (bulk 1001).

Definition after_bulk : State World :=
  fst (get_orders 10 "email" email_bulk start).

(** A store filled to the brim: a thousand contacts, one per millisecond. *)
Definition contact (n : nat) : string :=
  cacheKey "email" (String.append "user" (String.append (pretty n) "@example.com")).

Definition fill : list CacheOp :=
  map (fun n => OpSet (contact n) [] (Z.of_nat n)) (seq 0 1000).

Definition full_cache : Cache := run_ops fill.
End Demo.

(* ===================================================================== *)
(** ** More of the program: the request queue, failures, request sequences *)
(* ===================================================================== *)


Definition server_error : HttpResponse :=
  {| status := 500;
     body := ErrorMessage "An error occurred while fetching the order information" |}.

(** A task as the queue worker reads it: [task.type] and [task.info]. *)
Record Task := {
  type : string;
  info : string
}.

(** What the worker hands to [cb]: [cb(error)] or [cb(null, result)], where
    [result] is still [undefined] when neither branch assigned it. *)
Inductive Callback :=
| CbError (error : Error)
| CbResult (result : option (list OrderSummary)).

Section Queue.
Context {World : Type} `{!Upstream World}.

(** The worker function given to [new Queue(...)], lines 69 to 81. *)
Definition requestQueue_worker (fuel : nat) (task : Task) : M World Callback :=
  try_catch
    (let* result :=
       (if String.eqb (type task) "email" then
          let* found := searchOrdersByEmail fuel (info task) in ret (Some found)
        else if String.eqb (type task) "phone" then
          let* found := searchOrdersByPhone (info task) in ret (Some found)
        else ret None) in
     ret (CbResult result))
    (fun error => ret (CbError error)).
End Queue.

(** A page sequence that breaks: the pages answered so far, then the url
    whose fetch throws [e]. *)
Inductive pages_fail {World : Type} `{!Upstream World}
  : World -> string -> list (string * Rest.Response) -> string -> Error -> World -> Prop :=
| fail_here w url e w' :
    shopifyApi_get url w = (w', Throw e) ->
    pages_fail w url [] url e w'
| fail_later w url r w1 url' rest bad e w' :
    shopifyApi_get url w = (w1, Done r) ->
    next_page r = Some url' ->
    pages_fail w1 url' rest bad e w' ->
    pages_fail w url ((url, r) :: rest) bad e w'.

(** A service that names a next page in every answer. *)
Definition always_more {World : Type} `{!Upstream World} : Prop :=
  forall url w, exists w' r url',
    shopifyApi_get url w = (w', Done r) /\ next_page r = Some url'.

(** Order answers that break: the customers answered so far, then the
    customer whose order request throws [e]. *)
Inductive orders_fail {World : Type} `{!Upstream World}
  : World -> list Graph.Customer ->
    list (Graph.Customer * Graph.Connection Graph.OrderNode) ->
    Graph.Customer -> Error -> World -> Prop :=
| orders_fail_here w customer rest e w' :
    request_orders (orderQuery (Graph.c_id customer)) w = (w', Throw e) ->
    orders_fail w (customer :: rest) [] customer e w'
| orders_fail_later w customer conn w1 rest answers bad e w' :
    request_orders (orderQuery (Graph.c_id customer)) w = (w1, Done conn) ->
    orders_fail w1 rest answers bad e w' ->
    orders_fail w (customer :: rest) ((customer, conn) :: answers) bad e w'.

(** The states the service can be in: it starts with an empty store; a
    request is handled; the world moves on between requests; the store's
    timer runs its check. *)
Inductive reachable {World : Type} `{!Upstream World} : State World -> Prop :=
| reach_start w :
    reachable {| world := w; cache := empty_cache; trace := [] |}
| reach_request st fuel contact_type contact_info :
    reachable st ->
    reachable (fst (get_orders fuel contact_type contact_info st))
| reach_world st w :
    reachable st ->
    reachable {| world := w; cache := cache st; trace := trace st |}
| reach_timer st :
    reachable st ->
    reachable {| world := world st;
                 cache := NodeCache.checkData (Date_now (world st)) (cache st);
                 trace := trace st |}.

(** The store holds the key with a value that is still alive at [now]. *)
Definition alive_at (now : Z) (e : NodeCache.Entry (list OrderSummary)) : Prop :=
  NodeCache.t e = 0 \/ now <= NodeCache.t e.

(** Every key of the store was built from a valid contact type. *)
Definition keyed (c : Cache) : Prop :=
  forall key, is_Some (NodeCache.data c !! key) ->
              exists contact_info,
                key = cacheKey "email" contact_info \/
                key = cacheKey "phone" contact_info.

(** The characters that can occur in the output of [encodeURIComponent]. *)
Definition uri_safe (c : ascii) : bool :=
  Js.uri_unreserved c || Ascii.eqb c "%".

(** Reading back what [Js.encodeURIComponent] wrote: a kept character, one
    escaped byte, or the two escaped bytes of a code unit from 128 on. *)
Definition hex_value (c : ascii) : N :=
  let n := Js.code c in
  if (n <? 58)%N then (n - 48)%N else (n - 55)%N.

Fixpoint decode_units (s : string) : string :=
  match s with
  | EmptyString => EmptyString
  | String c s1 =>
      if Ascii.eqb c "%" then
        match s1 with
        | String h (String l s3) =>
            let b := (16 * hex_value h + hex_value l)%N in
            if (b <? 128)%N then String (ascii_of_N b) (decode_units s3)
            else
              match s3 with
              | String _ (String h2 (String l2 s6)) =>
                  let b2 := (16 * hex_value h2 + hex_value l2)%N in
                  String (ascii_of_N (64 * (b - 192) + (b2 - 128))) (decode_units s6)
              | _ => EmptyString
              end
        | _ => EmptyString
        end
      else String c (decode_units s1)
  end.

(* ===================================================================== *)
(** ** Two more shops: one that breaks, one that never stops *)
(* ===================================================================== *)

Module Cases.
(** A shop whose second page is gone and whose second customer cannot be
    read. The world counts the calls. *)
Definition World : Type := N.

Definition email_broken : string := "c@example.com".

Definition gone : Error := UpstreamError "Request failed with status code 404".

Definition get (url : string) (w : World) : World * Outcome Rest.Response :=
  ((w + 1)%N,
   if String.eqb url (first_page_url email_broken)
   then Done (Demo.page [Demo.o1001] (Some (Demo.link (Demo.page_url "gone") "next")))
   else Throw gone).

Definition customers (q : Graph.CustomerQuery) (w : World)
  : World * Outcome (Graph.Connection Graph.Customer) :=
  ((w + 1)%N,
   if String.eqb (Graph.cq_query q) "phone:999"
   then Done (Demo.connection [Demo.ann; Demo.bob; Demo.cat])
   else Throw gone).

Definition orders (q : Graph.OrderQuery) (w : World)
  : World * Outcome (Graph.Connection Graph.OrderNode) :=
  ((w + 1)%N,
   if String.eqb (Graph.oq_customerId q) (Graph.c_id Demo.ann)
   then Done (Demo.orders_answer q)
   else Throw gone).

#[global] Instance flaky : Upstream World :=
  {| Date_now := fun w => Z.of_N w;
     Date_parse := Demo.parse;
     shopifyApi_get := get;
     request_customers := customers;
     request_orders := orders |}.

Definition start : State World :=
  {| world := 0%N; cache := empty_cache; trace := [] |}.

(** A shop that answers every url with one order and a link to the same
    place. Its world is the number of answers given. *)
Definition again : string := Demo.page_url "again".

Definition loop_get (url : string) (w : nat) : nat * Outcome Rest.Response :=
  (S w, Done (Demo.page [Demo.o1001] (Some (Demo.link again "next")))).

#[global] Instance endless : Upstream nat :=
  {| Date_now := fun w => Z.of_nat w;
     Date_parse := Demo.parse;
     shopifyApi_get := loop_get;
     request_customers := fun _ w => (S w, Throw gone);
     request_orders := fun _ w => (S w, Throw gone) |}.

Definition loop_start : State nat :=
  {| world := 0%nat; cache := empty_cache; trace := [] |}.

(** A later moment in the first shop: the state a lookup of [Demo.email1]
    leaves, seen again after [ms] more milliseconds. *)
Definition later (ms : Z) : State Demo.World :=
  {| world := world Demo.after_email1 + ms;
     cache := cache Demo.after_email1;
     trace := [] |}.
End Cases.

(** A graph endpoint that answers with an order node without a display
    status; it has one customer and never changes. *)
Module Bare.
Definition ann : Graph.Customer :=
  {| Graph.c_id := "gid://shopify/Customer/1";
     Graph.displayName := Some "Ann"; Graph.email := None |}.

Definition customers (q : Graph.CustomerQuery) (w : unit)
  : unit * Outcome (Graph.Connection Graph.Customer) :=
  (w, Done (Demo.connection [ann])).

Definition orders (q : Graph.OrderQuery) (w : unit)
  : unit * Outcome (Graph.Connection Graph.OrderNode) :=
  (w, Done (Demo.connection [Graph.order_node Demo.no_status_order])).

#[global] Instance shop : Upstream unit :=
  {| Date_now := fun _ => 0;
     Date_parse := Demo.parse;
     shopifyApi_get := fun _ w => (w, Throw Cases.gone);
     request_customers := customers;
     request_orders := orders |}.

Definition start : State unit :=
  {| world := tt; cache := empty_cache; trace := [] |}.
End Bare.

(* ===================================================================== *)
(** ** The second server of [app.js] (lines 304 to 437)

    The same source file goes on with a second, simpler server: one store
    without a key limit, a [/get_orders] that asks for one page of the
    last year's orders, and a [/get_order_details]. Its handlers are
    embedded with the state passed by hand; every [await] and every store
    call stands in the handler's [try], so a throw ends in the 500 answer
    of its [catch]. *)
(* ===================================================================== *)

Module Legacy.
(** An order as the REST endpoint returns it to these handlers. *)
Record Order := {
  order_number : Z;
  created_at : string;
  total_price : string;
  fulfillment_status : option string;
  line_items : list Rest.LineItem;
  shipping_address : option Address;
  fulfillments : option (list Rest.Fulfillment)
}.

Record Response := { data_orders : list Order }.

(** The objects of [orderSummaries]. *)
Record Summary := {
  s_order_number : Z;
  s_created_at : string;
  s_total_price : string;
  s_fulfillment_status : string;
  s_items_count : Z
}.

(** The object [orderDetails]. *)
Record Details := {
  d_order_number : Z;
  d_created_at : string;
  d_total_price : string;
  d_fulfillment_status : string;
  d_shipping_address : option Address;
  d_line_items : list LineItem;
  d_tracking_info : option TrackingInfo
}.

(** What the one store of this server holds: both handlers write to it. *)
Inductive Value :=
| Summaries (orderSummaries : list Summary)
| OrderDetails (orderDetails : Details).

(** [shopifyApi.get(url, { params })]; the params object is a map from
    names to values, a later property of the literal replacing an earlier
    one of the same name. *)
Record Request := {
  url : string;
  params : gmap string string
}.

Inductive Body :=
| Sent (value : Value)
| ErrorMessage (error : string).

Record Answer := {
  status : Z;
  body : Body
}.

Inductive Event :=
| Get (request : Request)
| CacheGet (key : string)
| CacheSet (key : string).

(** The remote service and the clock of this server; [toISOString] is
    [new Date(t).toISOString()]. *)
Class Shop (World : Type) := {
  Date_now : World -> Z;
  toISOString : Z -> string;
  shopifyApi_get : Request -> World -> World * Outcome Response
}.

Record State (World : Type) := {
  world : World;
  cache : NodeCache.Cache Value;
  trace : list Event
}.
Arguments world {World} _.
Arguments cache {World} _.
Arguments trace {World} _.

(** [new NodeCache({ stdTTL: 3600 })]: [maxKeys] keeps its default, -1. *)
Definition cache_options : NodeCache.Options :=
  {| NodeCache.stdTTL := 3600; NodeCache.maxKeys := -1 |}.

Definition empty_cache : NodeCache.Cache Value := NodeCache.create cache_options.

Definition fields : string :=
  "id,order_number,created_at,total_price,fulfillment_status,line_items,shipping_address,email,phone".

(** [365 * 24 * 60 * 60 * 1000]. *)
Definition year_ms : Z := 365 * 24 * 60 * 60 * 1000.

Definition orders_error : Answer :=
  {| status := 500;
     body := ErrorMessage "An error occurred while fetching the order information" |}.

Definition details_error : Answer :=
  {| status := 500;
     body := ErrorMessage "An error occurred while fetching the order details" |}.

Definition not_found : Answer :=
  {| status := 404; body := ErrorMessage "Order not found" |}.

Definition json (value : Value) : Answer := {| status := 200; body := Sent value |}.

(** The callback of [orders.map] in [/get_orders]. *)
Definition summary (order : Order) : Summary :=
  {| s_order_number := order_number order;
     s_created_at := created_at order;
     s_total_price := total_price order;
     s_fulfillment_status := Js.or_default (fulfillment_status order) "unfulfilled";
     s_items_count :=
       Js.reduce (fun sum item => sum + Rest.quantity item) 0 (line_items order) |}.

(** The object literal [orderDetails] of [/get_order_details]. *)
Definition details (order : Order) : Details :=
  {| d_order_number := order_number order;
     d_created_at := created_at order;
     d_total_price := total_price order;
     d_fulfillment_status := Js.or_default (fulfillment_status order) "unfulfilled";
     d_shipping_address := shipping_address order;
     d_line_items :=
       map (fun item => {| title := Rest.title item;
                           quantity := Rest.quantity item;
                           price := Rest.price item |})
           (line_items order);
     d_tracking_info :=
       match fulfillments order with
       | Some (f0 :: _) =>
           Some {| tracking_number := Rest.tracking_number f0;
                   tracking_company := Rest.tracking_company f0;
                   tracking_url := Rest.tracking_url f0 |}
       | Some [] | None => None
       end |}.

Definition ordersKey (contact_type contact_info : string) : string :=
  String.append contact_type (String.append "-" contact_info).

Definition detailsKey (order_number : string) : string :=
  String.append "order-details-" order_number.

Section Handlers.
Context {World : Type} `{!Shop World}.

(** The request of [/get_orders]: [contact_type] is the name of a
    property of the params object, written after [status],
    [created_at_min] and [limit] and before [fields]. *)
Definition orders_request (now : Z) (contact_type contact_info : string) : Request :=
  let oneYearAgo := toISOString (now - year_ms) in
  {| url := "/orders.json";
     params :=
       <["fields"%string := fields]>
         (<[contact_type := contact_info]>
            (<["limit"%string := "250"%string]>
               (<["created_at_min"%string := oneYearAgo]>
                  (<["status"%string := "any"%string]> ∅)))) |}.

Definition details_request (order_number : string) : Request :=
  {| url := String.append "/orders.json?name=" order_number; params := ∅ |}.

(** POST /get_orders of the second server. *)
Definition get_orders (contact_type contact_info : string) (st : State World)
  : State World * Outcome Answer :=
  let cacheKey := ordersKey contact_type contact_info in
  let '(c1, cachedResult) := NodeCache.get cacheKey (Date_now (world st)) (cache st) in
  let st1 := {| world := world st; cache := c1;
                trace := trace st ++ [CacheGet cacheKey] |} in
  match cachedResult with
  | Some cached => (st1, Done (json cached))
  | None =>
      let request := orders_request (Date_now (world st)) contact_type contact_info in
      let '(w2, response) := shopifyApi_get request (world st) in
      let st2 := {| world := w2; cache := c1; trace := trace st1 ++ [Get request] |} in
      match response with
      | Done r =>
          let orders := data_orders r in
          let orderSummaries := map summary orders in
          let '(c3, written) :=
            NodeCache.set cacheKey (Summaries orderSummaries) (Date_now w2) c1 in
          let st3 := {| world := w2; cache := c3;
                        trace := trace st2 ++ [CacheSet cacheKey] |} in
          match written with
          | NodeCache.Ret _ => (st3, Done (json (Summaries orderSummaries)))
          | NodeCache.Raise _ => (st3, Done orders_error)
          end
      | Throw _ => (st2, Done orders_error)
      | Pending => (st2, Pending)
      end
  end.

(** POST /get_order_details. *)
Definition get_order_details (order_number : string) (st : State World)
  : State World * Outcome Answer :=
  let cacheKey := detailsKey order_number in
  let '(c1, cachedResult) := NodeCache.get cacheKey (Date_now (world st)) (cache st) in
  let st1 := {| world := world st; cache := c1;
                trace := trace st ++ [CacheGet cacheKey] |} in
  match cachedResult with
  | Some cached => (st1, Done (json cached))
  | None =>
      let request := details_request order_number in
      let '(w2, response) := shopifyApi_get request (world st) in
      let st2 := {| world := w2; cache := c1; trace := trace st1 ++ [Get request] |} in
      match response with
      | Done r =>
          match data_orders r with
          | [] => (st2, Done not_found)
          | order :: _ =>
              let orderDetails := details order in
              let '(c3, written) :=
                NodeCache.set cacheKey (OrderDetails orderDetails) (Date_now w2) c1 in
              let st3 := {| world := w2; cache := c3;
                            trace := trace st2 ++ [CacheSet cacheKey] |} in
              match written with
              | NodeCache.Ret _ => (st3, Done (json (OrderDetails orderDetails)))
              | NodeCache.Raise _ => (st3, Done details_error)
              end
          end
      | Throw _ => (st2, Done details_error)
      | Pending => (st2, Pending)
      end
  end.
End Handlers.

(** A shop for this server: the clock starts at 2024-01-01T00:00:00Z and a
    request takes 100 milliseconds; order 1001 exists, others do not. *)
Definition new_year : Z := 1704067200000.

Definition order1001 : Order :=
  {| order_number := 1001; created_at := "2024-01-01T00:00:00Z";
     total_price := "30.00"; fulfillment_status := None;
     line_items := [ {| Rest.title := "Mug"; Rest.quantity := 2; Rest.price := "10.00" |};
                     {| Rest.title := "Cap"; Rest.quantity := 1; Rest.price := "10.00" |} ];
     shipping_address := None;
     fulfillments := None |}.

Definition demo_get (request : Request) (w : Z) : Z * Outcome Response :=
  (w + 100,
   if String.eqb (url request) "/orders.json?name=1002"
   then Done {| data_orders := [] |}
   else Done {| data_orders := [order1001] |}).

#[global] Instance demo : Shop Z :=
  {| Date_now := fun w => w;
     toISOString := fun t => if t =? new_year - year_ms
                             then "2023-01-01T00:00:00.000Z"%string
                             else "1970-01-01T00:00:00.000Z"%string;
     shopifyApi_get := demo_get |}.

Definition start : State Z :=
  {| world := new_year; cache := empty_cache; trace := [] |}.
End Legacy.

(* ===================================================================== *)
(** ** General facts about the effects *)
(* ===================================================================== *)

Section Effects.
Context {World : Type} `{!Upstream World}.

Lemma bind_done {A B : Type} (m : M World A) (k : A -> M World B) st st' b :
  bind m k st = (st', Done b) ->
  exists st1 a, m st = (st1, Done a) /\ k a st1 = (st', Done b).
Proof.
  unfold bind. destruct (m st) as [st1 [a | e |]] eqn:Hm; intros Hk.
  - exists st1, a. split; [reflexivity | exact Hk].
  - discriminate.
  - discriminate.
Qed.

Lemma call_inv {A : Type} (e : Event) (f : World -> World * Outcome A) st st' r :
  call e f st = (st', r) ->
  exists w', f (world st) = (w', r) /\
             st' = {| world := w'; cache := cache st; trace := trace st ++ [e] |}.
Proof.
  unfold call. destruct (f (world st)) as [w' r'] eqn:Hf. intros Heq.
  inversion Heq; subst. exists w'. split; reflexivity.
Qed.

Lemma upstream_only_refl (st : State World) : upstream_only st st.
Proof.
  split; [reflexivity |]. exists []. rewrite app_nil_r. split; [reflexivity | constructor].
Qed.

Lemma upstream_only_trans (s1 s2 s3 : State World) :
  upstream_only s1 s2 -> upstream_only s2 s3 -> upstream_only s1 s3.
Proof.
  intros [Hc1 (e1 & Ht1 & Hf1)] [Hc2 (e2 & Ht2 & Hf2)]. split.
  - congruence.
  - exists (e1 ++ e2). split.
    + rewrite Ht2, Ht1, app_assoc. reflexivity.
    + apply Forall_app. split; assumption.
Qed.

Lemma call_upstream_only {A : Type} (e : Event) (f : World -> World * Outcome A) st :
  is_upstream e = true -> upstream_only st (fst (call e f st)).
Proof.
  intros He. unfold call. destruct (f (world st)) as [w' r]. simpl.
  split; [reflexivity |]. exists [e]. split; [reflexivity |].
  constructor; [exact He | constructor].
Qed.

Lemma bind_upstream_only {A B : Type} (m : M World A) (k : A -> M World B) st :
  upstream_only st (fst (m st)) ->
  (forall a st1, upstream_only st1 (fst (k a st1))) ->
  upstream_only st (fst (bind m k st)).
Proof.
  intros Hm Hk. unfold bind. destruct (m st) as [st1 [a | e |]]; simpl in *.
  - eapply upstream_only_trans; [exact Hm | apply Hk].
  - exact Hm.
  - exact Hm.
Qed.

Lemma email_loop_upstream_only fuel :
  forall allOrders nextPageUrl (st : State World),
    upstream_only st (fst (email_loop fuel allOrders nextPageUrl st)).
Proof.
  induction fuel as [| fuel IH]; intros acc next st.
  - destruct next as [url |]; simpl; [destruct (Js.truthy url) |];
      apply upstream_only_refl.
  - destruct next as [url |]; simpl; [destruct (Js.truthy url) |];
      try apply upstream_only_refl.
    apply bind_upstream_only.
    + apply call_upstream_only. reflexivity.
    + intros r st1. apply IH.
Qed.

Lemma searchOrdersByEmail_upstream_only fuel email (st : State World) :
  upstream_only st (fst (searchOrdersByEmail fuel email st)).
Proof.
  unfold searchOrdersByEmail. apply bind_upstream_only.
  - apply email_loop_upstream_only.
  - intros a st1. apply upstream_only_refl.
Qed.

Lemma customer_loop_upstream_only customers :
  forall allOrders (st : State World),
    upstream_only st (fst (customer_loop customers allOrders st)).
Proof.
  induction customers as [| c rest IH]; intros acc st; simpl.
  - apply upstream_only_refl.
  - apply bind_upstream_only.
    + apply call_upstream_only. reflexivity.
    + intros conn st1. apply IH.
Qed.

Lemma aggregateOrders_upstream_only phone (st : State World) :
  upstream_only st (fst (aggregateOrders phone st)).
Proof.
  unfold aggregateOrders. apply bind_upstream_only.
  - apply call_upstream_only. reflexivity.
  - intros conn st1. apply customer_loop_upstream_only.
Qed.

Lemma searchOrdersByPhone_upstream_only phone (st : State World) :
  upstream_only st (fst (searchOrdersByPhone phone st)).
Proof.
  unfold searchOrdersByPhone. apply bind_upstream_only.
  - apply aggregateOrders_upstream_only.
  - intros a st1. apply upstream_only_refl.
Qed.

(** What a finished lookup returns is the image of fetched orders. *)
Lemma searchOrdersByEmail_done fuel email (st st' : State World) res :
  searchOrdersByEmail fuel email st = (st', Done res) ->
  exists allOrders,
    email_loop fuel [] (Some (first_page_url email)) st = (st', Done allOrders) /\
    res = map restSummary allOrders.
Proof.
  unfold searchOrdersByEmail. intros Hb.
  apply bind_done in Hb as (st1 & raw & Hloop & Hret).
  unfold ret in Hret. inversion Hret; subst. exists raw. split; [exact Hloop | reflexivity].
Qed.

Lemma searchOrdersByPhone_done phone (st st' : State World) res :
  searchOrdersByPhone phone st = (st', Done res) ->
  exists allOrders,
    aggregateOrders phone st = (st', Done allOrders) /\
    res = map graphSummary (Js.sort by_created_desc allOrders).
Proof.
  unfold searchOrdersByPhone. intros Hb.
  apply bind_done in Hb as (st1 & agg & Hagg & Hret).
  unfold ret in Hret. inversion Hret; subst. exists agg. split; [exact Hagg | reflexivity].
Qed.
End Effects.

(* ===================================================================== *)
(** ** The normalisers: item counts *)
(* ===================================================================== *)

Lemma reduce_sum {A : Type} (q : A -> Z) (l : list A) (a : Z) :
  Js.reduce (fun sum x => sum + q x) a l = a + fold_right (fun x acc => q x + acc) 0 l.
Proof.
  unfold Js.reduce. revert a. induction l as [| x l IH]; intros a; simpl.
  - lia.
  - rewrite IH. lia.
Qed.

Lemma quantity_sum_map {A : Type} (f : A -> LineItem) (l : list A) :
  quantity_sum (map f l) = fold_right (fun x acc => quantity (f x) + acc) 0 l.
Proof.
  unfold quantity_sum. induction l as [| x l IH]; simpl; [reflexivity |].
  rewrite IH. reflexivity.
Qed.

Lemma restSummary_items_count (order : Rest.Order) :
  items_count (restSummary order) = quantity_sum (line_items (restSummary order)).
Proof.
  unfold restSummary; simpl. rewrite reduce_sum, quantity_sum_map. simpl. lia.
Qed.

Lemma graphSummary_items_count (order : Graph.Order) :
  items_count (graphSummary order) = quantity_sum (line_items (graphSummary order)).
Proof.
  unfold graphSummary; simpl. rewrite reduce_sum, quantity_sum_map. simpl. lia.
Qed.

(** C1. Every order a lookup returns, by email or by phone, has an
    [items_count] equal to the sum of the quantities of its [line_items]. *)
Theorem items_count_is_quantity_sum {World : Type} `{!Upstream World}
        (st st' : State World) (res : list OrderSummary) :
  (exists fuel email, searchOrdersByEmail fuel email st = (st', Done res)) \/
  (exists phone, searchOrdersByPhone phone st = (st', Done res)) ->
  Forall (fun s => items_count s = quantity_sum (line_items s)) res.
Proof.
  intros [(fuel & email & Hrun) | (phone & Hrun)].
  - apply searchOrdersByEmail_done in Hrun as (raw & _ & ->).
    apply Forall_map, Forall_forall. intros o _. apply restSummary_items_count.
  - apply searchOrdersByPhone_done in Hrun as (agg & _ & ->).
    apply Forall_map, Forall_forall. intros o _. apply graphSummary_items_count.
Qed.

Lemma items_count_is_quantity_sum_witness :
  Forall (fun s => items_count s = quantity_sum (line_items s))
         (match snd (searchOrdersByEmail 10 Demo.email1 Demo.start) with
          | Done l => l
          | _ => []
          end) /\
  Forall (fun s => items_count s = quantity_sum (line_items s))
         (match snd (searchOrdersByPhone Demo.phone1 Demo.start) with
          | Done l => l
          | _ => []
          end).
Proof.
  split.
  - apply (items_count_is_quantity_sum
             Demo.start (fst (searchOrdersByEmail 10 Demo.email1 Demo.start))).
    left. exists 10%nat, Demo.email1. vm_compute. reflexivity.
  - apply (items_count_is_quantity_sum
             Demo.start (fst (searchOrdersByPhone Demo.phone1 Demo.start))).
    right. exists Demo.phone1. vm_compute. reflexivity.
Defined.

(* ===================================================================== *)
(** ** The link pattern: the matcher against the pattern's language *)
(* ===================================================================== *)

Lemma append_cons (c : ascii) (a b : string) :
  String.append (String c a) b = String c (String.append a b).
Proof. reflexivity. Qed.

Lemma append_nil (b : string) : String.append EmptyString b = b.
Proof. reflexivity. Qed.

Lemma span_not_gt_split (s g r : string) :
  Js.span_not_gt s = (g, r) ->
  s = String.append g r /\
  Js.string_forall (fun c => negb (Ascii.eqb c ">")) g = true.
Proof.
  revert g r. induction s as [| c s IH]; intros g r; cbn [Js.span_not_gt].
  - intros Heq. inversion Heq. split; reflexivity.
  - destruct (Ascii.eqb c ">") eqn:Hc.
    + intros Heq. inversion Heq. split; reflexivity.
    + destruct (Js.span_not_gt s) as [g' r'] eqn:Hs. intros Heq. inversion Heq; subst.
      destruct (IH g' r eq_refl) as [-> Hall].
      rewrite append_cons. cbn [Js.string_forall]. rewrite Hc.
      split; [reflexivity | exact Hall].
Qed.

Lemma span_not_gt_app (g r : string) :
  Js.string_forall (fun c => negb (Ascii.eqb c ">")) g = true ->
  Js.span_not_gt (String.append g (String ">" r)) = (g, String ">" r).
Proof.
  induction g as [| c g IH]; cbn [Js.string_forall].
  - intros _. reflexivity.
  - intros Hall. apply andb_true_iff in Hall as [Hc Hall].
    apply negb_true_iff in Hc.
    rewrite append_cons. cbn [Js.span_not_gt]. rewrite Hc, (IH Hall). reflexivity.
Qed.

Lemma skip_spaces_split (s : string) :
  exists spaces,
    s = String.append spaces (Js.skip_spaces s) /\
    Js.string_forall Js.is_space spaces = true.
Proof.
  induction s as [| c s (spaces & Hs & Hall)]; cbn [Js.skip_spaces].
  - exists EmptyString. split; reflexivity.
  - destruct (Js.is_space c) eqn:Hc.
    + exists (String c spaces). split.
      * rewrite append_cons. f_equal. exact Hs.
      * cbn [Js.string_forall]. rewrite Hc. exact Hall.
    + exists EmptyString. split; reflexivity.
Qed.

Lemma skip_spaces_app (spaces : string) (c : ascii) (r : string) :
  Js.string_forall Js.is_space spaces = true ->
  Js.is_space c = false ->
  Js.skip_spaces (String.append spaces (String c r)) = String c r.
Proof.
  intros Hall Hc. induction spaces as [| d spaces IH].
  - rewrite append_nil. cbn [Js.skip_spaces]. rewrite Hc. reflexivity.
  - cbn [Js.string_forall] in Hall. apply andb_true_iff in Hall as [Hd Hall].
    rewrite append_cons. cbn [Js.skip_spaces]. rewrite Hd. apply IH, Hall.
Qed.

Lemma prefix_split (p s : string) :
  String.prefix p s = true -> exists tail, s = String.append p tail.
Proof.
  revert s. induction p as [| c p IH]; intros s.
  - intros _. exists s. reflexivity.
  - destruct s as [| d s]; cbn [String.prefix]; [discriminate |].
    destruct (ascii_dec c d) as [-> |]; [| discriminate].
    intros Hp. destruct (IH s Hp) as (tail & ->). exists tail. reflexivity.
Qed.

Lemma prefix_app (p tail : string) : String.prefix p (String.append p tail) = true.
Proof.
  induction p as [| c p IH].
  - rewrite append_nil. destruct tail; reflexivity.
  - rewrite append_cons. cbn [String.prefix].
    destruct (ascii_dec c c) as [_ | Hne]; [exact IH | contradiction].
Qed.

Lemma rel_next_head :
  exists rest, Js.rel_next = String "r" rest.
Proof. eexists. reflexivity. Qed.

(** At a fixed start, the matcher finds group [g] exactly when the string
    there belongs to the pattern with that group. *)
Lemma match_here_matches (s g : string) :
  Js.match_here s = Some g <-> Js.matches_here s g.
Proof.
  split.
  - unfold Js.match_here. destruct s as [| c s1]; [discriminate |].
    destruct (Ascii.eqb c "<") eqn:Hc; [| discriminate].
    apply Ascii.eqb_eq in Hc. subst c.
    destruct (Js.span_not_gt s1) as [g' r] eqn:Hspan.
    apply span_not_gt_split in Hspan as [-> Hall].
    destruct g' as [| c' g']; [discriminate |].
    destruct r as [| c1 [| c2 r2]]; try discriminate.
    destruct (Ascii.eqb c1 ">") eqn:H1; [| discriminate].
    destruct (Ascii.eqb c2 ";") eqn:H2; [| discriminate].
    apply Ascii.eqb_eq in H1, H2. subst c1 c2. cbn [andb].
    destruct (String.prefix Js.rel_next (Js.skip_spaces r2)) eqn:Hp; [| discriminate].
    intros Hg. inversion Hg; subst g.
    destruct (skip_spaces_split r2) as (spaces & Hr2 & Hsp).
    apply prefix_split in Hp as (tail & Htail).
    exists spaces, tail. rewrite Htail in Hr2. rewrite <- Hr2.
    split; [reflexivity |]. split; [discriminate |]. split; [exact Hall | exact Hsp].
  - intros (spaces & tail & -> & Hne & Hall & Hsp).
    unfold Js.match_here. rewrite Ascii.eqb_refl.
    rewrite (span_not_gt_app _ _ Hall).
    destruct g as [| c g]; [contradiction |].
    rewrite !Ascii.eqb_refl. cbn [andb].
    destruct rel_next_head as (rest & Hrest).
    assert (Hskip : Js.skip_spaces
                      (String.append spaces (String.append Js.rel_next tail)) =
                    String.append Js.rel_next tail).
    { rewrite Hrest, append_cons. apply skip_spaces_app; [exact Hsp | reflexivity]. }
    rewrite Hskip, prefix_app. reflexivity.
Qed.

Lemma match_here_nonempty (s g : string) :
  Js.match_here s = Some g -> Js.truthy g = true.
Proof.
  unfold Js.match_here. destruct s as [| c s1]; [discriminate |].
  destruct (Ascii.eqb c "<"); [| discriminate].
  destruct (Js.span_not_gt s1) as [g' r].
  destruct g' as [| c' g']; [discriminate |].
  destruct r as [| c1 [| c2 r2]]; try discriminate.
  destruct (_ && _); [| discriminate].
  intros Hm. inversion Hm. reflexivity.
Qed.

Lemma match_next_unfold (c : ascii) (s : string) :
  Js.match_next (String c s) =
  match Js.match_here (String c s) with
  | Some g => Some g
  | None => Js.match_next s
  end.
Proof. reflexivity. Qed.

Lemma match_next_nonempty (s g : string) :
  Js.match_next s = Some g -> Js.truthy g = true.
Proof.
  induction s as [| c s IH].
  - discriminate.
  - rewrite match_next_unfold.
    destruct (Js.match_here (String c s)) as [g' |] eqn:Hh.
    + intros Hg. inversion Hg; subst. eapply match_here_nonempty, Hh.
    + exact IH.
Qed.

(** Over the whole header, the matcher returns the group of the first
    position at which the pattern matches. *)
Lemma match_next_leftmost (s g : string) :
  Js.match_next s = Some g <->
  exists before after,
    s = String.append before after /\
    Js.match_here after = Some g /\
    forall b a, s = String.append b a ->
                (String.length b < String.length before)%nat ->
                Js.match_here a = None.
Proof.
  revert g. induction s as [| c s IH]; intros g.
  - split; [discriminate |].
    intros (b & a & Hs & Hm & _). destruct b; [| discriminate].
    rewrite append_nil in Hs. subst a. discriminate.
  - rewrite match_next_unfold.
    destruct (Js.match_here (String c s)) as [g0 |] eqn:Hh.
    + split.
      * intros Hg. inversion Hg; subst g0. exists EmptyString, (String c s).
        split; [reflexivity |]. split; [exact Hh |].
        intros b a _ Hlt. cbn [String.length] in Hlt. lia.
      * intros (b & a & Hs & Hm & Hleft). destruct b as [| d b].
        -- rewrite append_nil in Hs. subst a. rewrite Hh in Hm. exact Hm.
        -- rewrite (Hleft EmptyString (String c s) eq_refl) in Hh
             by (cbn [String.length]; lia).
           discriminate.
    + rewrite IH. split.
      * intros (b & a & -> & Hm & Hleft). exists (String c b), a.
        split; [reflexivity |]. split; [exact Hm |].
        intros b1 a1 Hs1 Hlt. destruct b1 as [| d b1].
        -- rewrite append_nil in Hs1. subst a1. exact Hh.
        -- rewrite !append_cons in Hs1. injection Hs1 as _ Hs1.
           apply (Hleft b1 a1 Hs1).
           cbn [String.length] in Hlt. lia.
      * intros (b & a & Hs & Hm & Hleft). destruct b as [| d b].
        -- rewrite append_nil in Hs. subst a. rewrite Hh in Hm. discriminate.
        -- rewrite append_cons in Hs. injection Hs as Hcd Hs. subst d.
           exists b, a.
           split; [exact Hs |]. split; [exact Hm |].
           intros b1 a1 Hs1 Hlt. apply (Hleft (String c b1) a1).
           ++ rewrite append_cons, <- Hs1. reflexivity.
           ++ cbn [String.length]. lia.
Qed.

(* ===================================================================== *)
(** ** Paging by email *)
(* ===================================================================== *)

Lemma next_page_truthy (r : Rest.Response) (url : string) :
  next_page r = Some url -> Js.truthy url = true.
Proof.
  unfold next_page. destruct (Rest.headers_link r) as [h |]; [| discriminate].
  destruct (Js.truthy h); [| discriminate]. apply match_next_nonempty.
Qed.

Lemma first_page_url_truthy (email : string) : Js.truthy (first_page_url email) = true.
Proof. reflexivity. Qed.

Section Paging.
Context {World : Type} `{!Upstream World}.

Lemma email_loop_pages w url pages w' :
  pages_from w url pages w' ->
  forall fuel allOrders (st : State World),
    world st = w ->
    Js.truthy url = true ->
    (length pages <= fuel)%nat ->
    email_loop fuel allOrders (Some url) st =
    ({| world := w'; cache := cache st; trace := trace st ++ fetched pages |},
     Done (allOrders ++ page_orders pages)).
Proof.
  induction 1 as [w url r w' Hget Hnext | w url r w1 url' rest w' Hget Hnext Hrest IH];
    intros fuel acc st Hw Hurl Hfuel.
  - destruct fuel as [| fuel]; [simpl in Hfuel; lia |].
    simpl. rewrite Hurl. unfold bind, call. rewrite Hw, Hget. rewrite Hnext.
    destruct fuel; simpl; unfold ret, page_orders; simpl; rewrite app_nil_r; reflexivity.
  - destruct fuel as [| fuel]; [simpl in Hfuel; lia |].
    simpl. rewrite Hurl. unfold bind, call. rewrite Hw, Hget. rewrite Hnext.
    rewrite (IH fuel); simpl.
    + unfold page_orders. simpl. rewrite <- !app_assoc. reflexivity.
    + reflexivity.
    + eapply next_page_truthy, Hnext.
    + simpl in Hfuel. lia.
Qed.
End Paging.

Lemma pages_from_head {World : Type} `{!Upstream World} w url pages w' :
  pages_from w url pages w' -> fst <$> head pages = Some url.
Proof. destruct 1; reflexivity. Qed.

(** C2. An email lookup starts at the initial query, follows the [next]
    link of every response until a response has none, and returns the
    orders of all pages in page order; a sequence of n pages costs exactly
    n fetches. *)
Theorem email_lookup_reads_every_page {World : Type} `{!Upstream World}
        (email : string) (st : State World)
        (pages : list (string * Rest.Response)) (w' : World) (fuel : nat) :
  pages_from (world st) (first_page_url email) pages w' ->
  (length pages <= fuel)%nat ->
  searchOrdersByEmail fuel email st =
    ({| world := w'; cache := cache st; trace := trace st ++ fetched pages |},
     Done (map restSummary (page_orders pages))) /\
  fst <$> head pages = Some (first_page_url email) /\
  length (fetched pages) = length pages.
Proof.
  intros Hpages Hfuel. split; [| split].
  - unfold searchOrdersByEmail, bind.
    rewrite (email_loop_pages _ _ _ _ Hpages fuel [] st eq_refl
               (first_page_url_truthy email) Hfuel).
    reflexivity.
  - eapply pages_from_head, Hpages.
  - unfold fetched. apply length_map.
Qed.

Lemma email_lookup_reads_every_page_witness :
  let pages := [ (first_page_url Demo.email1, Demo.page1);
                 (Demo.page_url "p2", Demo.page2);
                 (Demo.page_url "p3", Demo.page3) ] in
  searchOrdersByEmail 3 Demo.email1 Demo.start =
    ({| world := 300; cache := cache Demo.start;
        trace := trace Demo.start ++ fetched pages |},
     Done (map restSummary [Demo.o1001; Demo.o1002; Demo.o1003])) /\
  fst <$> head pages = Some (first_page_url Demo.email1) /\
  length (fetched pages) = 3%nat.
Proof.
  intros pages.
  apply (email_lookup_reads_every_page Demo.email1 Demo.start pages 300 3).
  - apply pages_more with (w1 := 100) (url' := Demo.page_url "p2");
      [reflexivity | reflexivity |].
    apply pages_more with (w1 := 200) (url' := Demo.page_url "p3");
      [reflexivity | reflexivity |].
    apply pages_last; reflexivity.
  - simpl. lia.
Defined.

(* ===================================================================== *)
(** ** The store never outgrows its key limit *)
(* ===================================================================== *)

Lemma cache_wf_empty : cache_wf empty_cache.
Proof.
  unfold cache_wf, empty_cache, NodeCache.create; simpl.
  rewrite map_size_empty. split; [reflexivity | split; lia].
Qed.

Lemma size_pos_of_lookup {A : Type} (m : gmap string A) (k : string) (x : A) :
  m !! k = Some x -> (0 < size m)%nat.
Proof.
  intros Hk. destruct (size m) eqn:Hs; [| lia].
  apply map_size_empty_iff in Hs. subst m. rewrite lookup_empty in Hk. discriminate.
Qed.

Lemma del_wf (key : string) (c : Cache) : cache_wf c -> cache_wf (NodeCache.del key c).
Proof.
  intros (Ho & Hk & Hmax). unfold NodeCache.del.
  destruct (NodeCache.data c !! key) as [e |] eqn:He; [| split; [| split]; assumption].
  unfold cache_wf; simpl.
  rewrite map_size_delete_Some by (rewrite He; eauto).
  pose proof (size_pos_of_lookup _ _ _ He).
  split; [assumption | split; lia].
Qed.

Lemma check_wf (key : string) (e : NodeCache.Entry (list OrderSummary)) (now : Z)
      (c : Cache) :
  cache_wf c -> cache_wf (fst (NodeCache.check key e now c)).
Proof.
  intros Hwf. unfold NodeCache.check.
  destruct (negb (NodeCache.t e =? 0) && (NodeCache.t e <? now)); simpl.
  - apply del_wf, Hwf.
  - exact Hwf.
Qed.

Lemma get_wf (key : string) (now : Z) (c : Cache) :
  cache_wf c -> cache_wf (fst (NodeCache.get key now c)).
Proof.
  intros Hwf. unfold NodeCache.get.
  destruct (NodeCache.data c !! key) as [e |]; [| exact Hwf].
  pose proof (check_wf key e now c Hwf) as Hc.
  destruct (NodeCache.check key e now c) as [c' alive]. destruct alive; exact Hc.
Qed.

Lemma set_full (key : string) (value : list OrderSummary) (now : Z) (c : Cache) :
  cache_wf c ->
  size (NodeCache.data c) = 1000%nat ->
  NodeCache.set key value now c = (c, NodeCache.Raise "ECACHEFULL").
Proof.
  intros (Ho & Hk & _) Hsize. unfold NodeCache.set.
  rewrite Ho, Hk, Hsize. reflexivity.
Qed.

Lemma set_wf (key : string) (value : list OrderSummary) (now : Z) (c : Cache) :
  cache_wf c -> cache_wf (fst (NodeCache.set key value now c)).
Proof.
  intros (Ho & Hk & Hmax). unfold NodeCache.set. rewrite Ho. simpl.
  destruct (NodeCache.stats_keys c >=? 1000) eqn:Hfull; simpl.
  - split; [| split]; assumption.
  - assert (NodeCache.stats_keys c < 1000) by lia.
    unfold cache_wf; simpl. rewrite map_size_insert.
    destruct (NodeCache.data c !! key) as [e |] eqn:He.
    + rewrite bool_decide_eq_true_2 by eauto. simpl. split; [first [assumption | reflexivity] | split; lia].
    + rewrite bool_decide_eq_false_2 by (intros [? ?]; discriminate).
      simpl. split; [first [assumption | reflexivity] | split; lia].
Qed.

Lemma checkData_wf (now : Z) (c : Cache) : cache_wf c -> cache_wf (NodeCache.checkData now c).
Proof.
  unfold NodeCache.checkData. generalize (map_to_list (NodeCache.data c)) as l.
  intros l. revert c. induction l as [| [k e] l IH]; intros c Hwf; simpl.
  - exact Hwf.
  - apply IH, check_wf, Hwf.
Qed.

Lemma run_op_wf (c : Cache) (op : CacheOp) : cache_wf c -> cache_wf (run_op c op).
Proof.
  intros Hwf. destruct op; simpl.
  - apply get_wf, Hwf.
  - apply set_wf, Hwf.
  - apply del_wf, Hwf.
  - apply checkData_wf, Hwf.
Qed.

Lemma run_ops_wf (ops : list CacheOp) : cache_wf (run_ops ops).
Proof.
  unfold run_ops. generalize cache_wf_empty. generalize empty_cache as c.
  induction ops as [| op ops IH]; intros c Hwf; simpl.
  - exact Hwf.
  - apply IH, run_op_wf, Hwf.
Qed.

(** C3, as the store behaves. Whatever reads, writes, deletions and timer
    checks it has gone through, the store holds at most 1000 keys; and once
    it holds 1000, a [set] of any key throws [ECACHEFULL] and leaves the
    store exactly as it was: nothing is evicted and the new key is not
    admitted. *)
Theorem cache_is_bounded_and_full_store_rejects (ops : list CacheOp) :
  (size (NodeCache.data (run_ops ops)) <= 1000)%nat /\
  (size (NodeCache.data (run_ops ops)) = 1000%nat ->
   forall key value now,
     NodeCache.set key value now (run_ops ops) =
     (run_ops ops, NodeCache.Raise "ECACHEFULL")).
Proof.
  pose proof (run_ops_wf ops) as Hwf. split.
  - destruct Hwf as (_ & Hk & Hmax). lia.
  - intros Hsize key value now. apply set_full; assumption.
Qed.

Lemma cache_is_bounded_and_full_store_rejects_witness :
  size (NodeCache.data (run_ops Demo.fill)) = 1000%nat /\
  forall key value now,
    NodeCache.set key value now (run_ops Demo.fill) =
    (run_ops Demo.fill, NodeCache.Raise "ECACHEFULL").
Proof.
  split.
  - vm_compute. reflexivity.
  - apply (cache_is_bounded_and_full_store_rejects Demo.fill).
    vm_compute. reflexivity.
Defined.

(** C3, as the claim has it, fails: on a store of 1000 keys, the write of a
    1001st key is refused; the key that went in first is still there and
    the new one is not. *)
Lemma full_cache_set_evicts_nothing :
  let key := cacheKey "email" "new@example.com" in
  let after := NodeCache.set key [] 5000 Demo.full_cache in
  size (NodeCache.data Demo.full_cache) = 1000%nat /\
  NodeCache.data Demo.full_cache !! key = None /\
  snd after = NodeCache.Raise "ECACHEFULL" /\
  NodeCache.data (fst after) !! key = None /\
  NodeCache.data (fst after) !! Demo.contact 0 =
    Some {| NodeCache.t := 3600000; NodeCache.v := [] |} /\
  size (NodeCache.data (fst after)) = 1000%nat.
Proof. vm_compute. repeat split; reflexivity. Qed.

(* ===================================================================== *)
(** ** The handler and the store *)
(* ===================================================================== *)

Section Handler.
Context {World : Type} `{!Upstream World}.

Lemma try_catch_ret_fst {A : Type} (m : M World A) (h : Error -> A) (st : State World) :
  fst (try_catch m (fun e => ret (h e)) st) = fst (m st).
Proof.
  unfold try_catch. destruct (m st) as [st1 [a | e |]]; reflexivity.
Qed.

Lemma cache_get_inv (key : string) (st : State World) :
  cache_get key st =
  ({| world := world st;
      cache := fst (NodeCache.get key (Date_now (world st)) (cache st));
      trace := trace st ++ [EvCacheGet key] |},
   Done (snd (NodeCache.get key (Date_now (world st)) (cache st)))).
Proof.
  unfold cache_get. destruct (NodeCache.get _ _ _) as [c' r]. reflexivity.
Qed.

Lemma cache_set_fst (key : string) (value : list OrderSummary) (st : State World) :
  fst (cache_set key value st) =
  {| world := world st;
     cache := fst (NodeCache.set key value (Date_now (world st)) (cache st));
     trace := trace st ++ [EvCacheSet key] |}.
Proof.
  unfold cache_set. destruct (NodeCache.set _ _ _ _) as [c' r]. reflexivity.
Qed.

(** The tail of the handler adds nothing to the trace but, at most, one
    write under its key. *)
Lemma store_and_send_trace (key : string) (orders : list OrderSummary)
      (st : State World) :
  exists evs,
    trace (fst (store_and_send key orders st)) = trace st ++ evs /\
    Forall (on_key key) evs /\
    Forall (fun e => is_upstream e = false) evs.
Proof.
  unfold store_and_send, bind.
  destruct (Z.of_nat (length orders) <=? 1000).
  - pose proof (cache_set_fst key orders st) as Hset.
    destruct (cache_set key orders st) as [st1 [b | e |]]; simpl in *; subst st1;
      simpl; exists [EvCacheSet key];
      (split; [reflexivity | split; constructor; solve [reflexivity | constructor]]).
  - simpl. exists []. rewrite app_nil_r. split; [reflexivity | split; constructor].
Qed.

Lemma upstream_on_key (key : string) (evs : list Event) :
  Forall (fun e => is_upstream e = true) evs -> Forall (on_key key) evs.
Proof.
  intros Hup. eapply Forall_impl; [exact Hup |].
  intros [] He; simpl in *; solve [exact I | discriminate].
Qed.

(** A strategy followed by the tail of the handler. *)
Lemma search_then_send_trace (key : string) (search : M World (list OrderSummary))
      (st : State World) :
  upstream_only st (fst (search st)) ->
  exists evs,
    trace (fst (bind search (store_and_send key) st)) = trace st ++ evs /\
    Forall (on_key key) evs.
Proof.
  intros [_ (evs1 & Ht1 & Hup)]. unfold bind.
  destruct (search st) as [st1 [orders | e |]]; simpl in *.
  - destruct (store_and_send_trace key orders st1) as (evs2 & Ht2 & Hk2 & _).
    exists (evs1 ++ evs2). split.
    + rewrite Ht2, Ht1, app_assoc. reflexivity.
    + apply Forall_app. split; [apply upstream_on_key, Hup | exact Hk2].
  - exists evs1. split; [exact Ht1 | apply upstream_on_key, Hup].
  - exists evs1. split; [exact Ht1 | apply upstream_on_key, Hup].
Qed.
End Handler.

(** C4, as the handler computes it. The handler first reads the store under
    the key made of contact_type, the character "-" and contact_info, and
    every other store event of the request (the write) names that same
    key. *)
Theorem cache_key_is_dash_joined {World : Type} `{!Upstream World}
        (fuel : nat) (contact_type contact_info : string) (st : State World) :
  exists evs,
    trace (fst (get_orders fuel contact_type contact_info st)) =
      trace st ++
      EvCacheGet (String.append contact_type (String.append "-" contact_info)) :: evs /\
    Forall (on_key (String.append contact_type (String.append "-" contact_info))) evs.
Proof.
  unfold get_orders. rewrite try_catch_ret_fst.
  unfold cacheKey. set (key := String.append contact_type _).
  unfold bind at 1. rewrite cache_get_inv.
  set (st1 := {| world := world st; cache := _; trace := _ |}).
  assert (Hgoal : forall (m : M World HttpResponse),
             (exists evs, trace (fst (m st1)) = trace st1 ++ evs /\
                          Forall (on_key key) evs) ->
             exists evs, trace (fst (m st1)) = trace st ++ EvCacheGet key :: evs /\
                         Forall (on_key key) evs).
  { intros m (evs & Ht & Hk). exists evs. split; [| exact Hk].
    rewrite Ht. subst st1. simpl. rewrite <- app_assoc. reflexivity. }
  destruct (snd (NodeCache.get key (Date_now (world st)) (cache st))) as [cached |].
  - apply Hgoal. exists []. simpl. rewrite app_nil_r. split; [reflexivity | constructor].
  - destruct (String.eqb contact_type "email").
    + apply Hgoal, search_then_send_trace, searchOrdersByEmail_upstream_only.
    + destruct (String.eqb contact_type "phone").
      * apply Hgoal, search_then_send_trace, searchOrdersByPhone_upstream_only.
      * apply Hgoal. exists []. simpl. rewrite app_nil_r.
        split; [reflexivity | constructor].
Qed.

(** C4, as the claim has it, fails: the key of the request
    ("email", "a-b@example.com") is not the two fields joined by ":", and
    the read and the write of that request both use the "-" key. *)
Lemma cache_key_is_not_colon_joined :
  cacheKey "email" Demo.email1 <> String.append "email" (String.append ":" Demo.email1) /\
  List.filter (fun e => negb (is_upstream e))
              (trace (fst (get_orders 10 "email" Demo.email1 Demo.start))) =
    [EvCacheGet "email-a-b@example.com"; EvCacheSet "email-a-b@example.com"].
Proof.
  split.
  - vm_compute. discriminate.
  - vm_compute. reflexivity.
Qed.

(* ===================================================================== *)
(** ** The sort of the phone lookup *)
(* ===================================================================== *)

Section SortFacts.
Context {A : Type} (time : A -> option Z).

Local Abbreviation desc := (desc_by time).
Local Abbreviation dated := (at_time time).
Local Abbreviation no_older := (newer time).

Lemma insert_sorted_perm (cmp : A -> A -> option Z) (x : A) (l : list A) :
  Permutation (Js.insert_sorted cmp x l) (x :: l).
Proof.
  induction l as [| y l IH]; simpl.
  - reflexivity.
  - destruct (Js.before cmp x y).
    + reflexivity.
    + rewrite IH. apply perm_swap.
Qed.

Lemma sort_perm (cmp : A -> A -> option Z) (l : list A) :
  Permutation (Js.sort cmp l) l.
Proof.
  induction l as [| x l IH]; simpl.
  - reflexivity.
  - rewrite insert_sorted_perm. constructor. exact IH.
Qed.

(** An element only moves past elements of a strictly later date. *)
Lemma before_false (x y : A) :
  Js.before desc x y = false ->
  exists tx ty, time x = Some tx /\ time y = Some ty /\ tx < ty.
Proof.
  unfold Js.before, desc_by.
  destruct (time y) as [ty |]; [| discriminate].
  destruct (time x) as [tx |]; [| discriminate].
  intros Hb. exists tx, ty. repeat split; try reflexivity. lia.
Qed.

Lemma before_true (x y : A) tx ty :
  time x = Some tx -> time y = Some ty ->
  Js.before desc x y = true -> ty <= tx.
Proof.
  unfold Js.before, desc_by. intros -> ->. intros Hb. lia.
Qed.

Lemma insert_sorted_filter (t : Z) (x : A) (l : list A) :
  List.filter (dated t) (Js.insert_sorted desc x l) =
  List.filter (dated t) (x :: l).
Proof.
  induction l as [| y l IH].
  - reflexivity.
  - cbn [Js.insert_sorted]. destruct (Js.before desc x y) eqn:Hb.
    + reflexivity.
    + apply before_false in Hb as (tx & ty & Hx & Hy & Hlt).
      assert (Hx' : dated t x = (tx =? t))
        by (unfold at_time; rewrite Hx; reflexivity).
      assert (Hy' : dated t y = (ty =? t))
        by (unfold at_time; rewrite Hy; reflexivity).
      cbn [List.filter] in *. rewrite IH, Hx', Hy'.
      destruct (ty =? t) eqn:Hyt; destruct (tx =? t) eqn:Hxt;
        try reflexivity; lia.
Qed.

(** Stability: the orders of one instant come out in the order they went in. *)
Lemma sort_filter (t : Z) (l : list A) :
  List.filter (dated t) (Js.sort desc l) = List.filter (dated t) l.
Proof.
  induction l as [| x l IH].
  - reflexivity.
  - cbn [Js.sort]. rewrite insert_sorted_filter. cbn [List.filter].
    rewrite IH. reflexivity.
Qed.

Lemma newer_trans (a b c : A) : no_older a b -> no_older b c -> no_older a c.
Proof.
  intros (ta & tb & Ha & Hb & Hab) (tb' & tc & Hb' & Hc & Hbc).
  rewrite Hb in Hb'. inversion Hb'; subst tb'.
  exists ta, tc. repeat split; try assumption. lia.
Qed.

Lemma insert_sorted_sorted (x : A) (l : list A) :
  is_Some (time x) ->
  Forall (fun a => is_Some (time a)) l ->
  StronglySorted no_older l ->
  StronglySorted no_older (Js.insert_sorted desc x l).
Proof.
  intros [tx Hx] Hvalid Hsorted.
  induction Hsorted as [| y l Hl IH Hy]; cbn [Js.insert_sorted].
  - constructor; constructor.
  - apply Forall_cons in Hvalid as [[ty Hty] Hvalid].
    destruct (Js.before desc x y) eqn:Hb.
    + assert (Hxy : no_older x y).
      { exists tx, ty. repeat split; try assumption.
        eapply before_true; eassumption. }
      constructor; [constructor; assumption |].
      constructor; [exact Hxy |].
      eapply Forall_impl; [exact Hy |]. intros z Hyz. eapply newer_trans; eassumption.
    + apply before_false in Hb as (tx' & ty' & Hx' & Hy' & Hlt).
      constructor; [apply IH, Hvalid |].
      eapply Permutation_Forall; [symmetry; apply insert_sorted_perm |].
      constructor; [| exact Hy].
      exists ty', tx'. repeat split; try assumption. lia.
Qed.

Lemma sort_sorted (l : list A) :
  Forall (fun a => is_Some (time a)) l ->
  StronglySorted no_older (Js.sort desc l).
Proof.
  induction l as [| x l IH]; intros Hvalid; cbn [Js.sort].
  - constructor.
  - apply Forall_cons in Hvalid as [Hx Hvalid].
    apply insert_sorted_sorted.
    + exact Hx.
    + eapply Permutation_Forall; [symmetry; apply sort_perm | exact Hvalid].
    + apply IH, Hvalid.
Qed.
End SortFacts.

(* ===================================================================== *)
(** ** The sort is determined by what it guarantees *)
(* ===================================================================== *)

Section SortDetermined.
Context {A : Type} (time : A -> option Z).

Local Abbreviation dated := (at_time time).
Local Abbreviation no_older := (newer time).
Local Abbreviation has_date := (fun a : A => is_Some (time a)).

Lemma dated_own (x : A) (tx : Z) : time x = Some tx -> dated tx x = true.
Proof. unfold at_time. intros ->. apply Z.eqb_refl. Qed.

Lemma dated_inv (x : A) (t : Z) : dated t x = true -> time x = Some t.
Proof.
  unfold at_time. destruct (time x) as [tx |]; [| discriminate].
  intros Heq. apply Z.eqb_eq in Heq. subst. reflexivity.
Qed.

Lemma filter_tails (x : A) (l1 l2 : list A) :
  (forall t, List.filter (dated t) (x :: l1) = List.filter (dated t) (x :: l2)) ->
  forall t, List.filter (dated t) l1 = List.filter (dated t) l2.
Proof.
  intros Hf t. specialize (Hf t). cbn [List.filter] in Hf.
  destruct (dated t x); [injection Hf as Hf |]; exact Hf.
Qed.

(** Two descending lists that agree instant by instant are the same list. *)
Lemma stable_sorted_unique (l1 : list A) :
  forall l2,
    Forall has_date l1 -> Forall has_date l2 ->
    StronglySorted no_older l1 -> StronglySorted no_older l2 ->
    (forall t, List.filter (dated t) l1 = List.filter (dated t) l2) ->
    l1 = l2.
Proof.
  induction l1 as [| x l1 IH]; intros l2 Hv1 Hv2 Hs1 Hs2 Hf.
  - destruct l2 as [| y l2]; [reflexivity |].
    apply Forall_cons in Hv2 as [[ty Hy] _].
    specialize (Hf ty). cbn [List.filter] in Hf. rewrite (dated_own y ty Hy) in Hf.
    discriminate.
  - apply Forall_cons in Hv1 as [[tx Hx] Hv1].
    apply StronglySorted_inv in Hs1 as [Hs1 Hx_first].
    destruct l2 as [| y l2].
    + specialize (Hf tx). cbn [List.filter] in Hf. rewrite (dated_own x tx Hx) in Hf.
      discriminate.
    + apply Forall_cons in Hv2 as [[ty Hy] Hv2].
      apply StronglySorted_inv in Hs2 as [Hs2 Hy_first].
      assert (Hxy : x = y).
      { destruct (Z.eq_dec tx ty) as [-> | Hne].
        - specialize (Hf ty). cbn [List.filter] in Hf.
          rewrite (dated_own x ty Hx), (dated_own y ty Hy) in Hf.
          injection Hf as Hxy _. exact Hxy.
        - exfalso.
          assert (Hyx : dated tx y = false).
          { unfold at_time. rewrite Hy. apply Z.eqb_neq. congruence. }
          assert (Hxy : dated ty x = false).
          { unfold at_time. rewrite Hx. apply Z.eqb_neq. congruence. }
          assert (Hx_in : In x l2).
          { pose proof (Hf tx) as H1. cbn [List.filter] in H1.
            rewrite (dated_own x tx Hx), Hyx in H1.
            assert (Hin : In x (List.filter (dated tx) l2)) by (rewrite <- H1; left; reflexivity).
            apply filter_In in Hin as [Hin _]. exact Hin. }
          assert (Hy_in : In y l1).
          { pose proof (Hf ty) as H1. cbn [List.filter] in H1.
            rewrite (dated_own y ty Hy), Hxy in H1.
            assert (Hin : In y (List.filter (dated ty) l1)) by (rewrite H1; left; reflexivity).
            apply filter_In in Hin as [Hin _]. exact Hin. }
          rewrite Forall_forall in Hx_first, Hy_first.
          apply list_elem_of_In in Hx_in, Hy_in.
          destruct (Hy_first x Hx_in) as (ty' & tx' & Hy' & Hx' & Hle1).
          destruct (Hx_first y Hy_in) as (tx'' & ty'' & Hx'' & Hy'' & Hle2).
          rewrite Hx in Hx', Hx''. rewrite Hy in Hy', Hy''.
          inversion Hx'; inversion Hx''; inversion Hy'; inversion Hy''; subst. lia. }
      subst y. f_equal.
      apply IH; try assumption. eapply filter_tails, Hf.
Qed.

(** Whatever algorithm the engine runs, a stable descending sort of dated
    elements returns what [Js.sort] returns. *)
Lemma sort_determined (l l' : list A) :
  Forall has_date l -> Forall has_date l' ->
  StronglySorted no_older l' ->
  (forall t, List.filter (dated t) l' = List.filter (dated t) l) ->
  l' = Js.sort (desc_by time) l.
Proof.
  intros Hv Hv' Hs' Hf. apply stable_sorted_unique.
  - exact Hv'.
  - eapply Permutation_Forall; [symmetry; apply sort_perm | exact Hv].
  - exact Hs'.
  - apply sort_sorted, Hv.
  - intros t. rewrite sort_filter. apply Hf.
Qed.
End SortDetermined.

(** Orders of one instant keep the order of the aggregation: Cat's two
    orders and Dan's first are all of the second day. *)
Example phone_lookup_keeps_ties_in_order :
  match snd (searchOrdersByPhone Demo.phone2 Demo.start) with
  | Done res => map order_number res
  | _ => []
  end = ["#3004"; "#3001"; "#3002"; "#3003"]%string.
Proof. vm_compute. reflexivity. Qed.

Section PhoneLookup.
Context {World : Type} `{!Upstream World}.

Lemma summary_time_graphSummary (o : Graph.Order) :
  summary_time (graphSummary o) = order_time o.
Proof. reflexivity. Qed.

Lemma filter_graphSummary (t : Z) (l : list Graph.Order) :
  List.filter (at_time summary_time t) (map graphSummary l) =
  map graphSummary (List.filter (at_time order_time t) l).
Proof.
  induction l as [| o l IH]; [reflexivity |].
  cbn [map List.filter]. rewrite IH.
  change (at_time summary_time t (graphSummary o)) with (at_time order_time t o).
  destruct (at_time order_time t o); reflexivity.
Qed.

Lemma sorted_graphSummary (l : list Graph.Order) :
  StronglySorted (newer order_time) l ->
  StronglySorted (newer summary_time) (map graphSummary l).
Proof.
  induction 1 as [| o l Hl IH Ho]; cbn [map]; constructor.
  - exact IH.
  - apply Forall_map. eapply Forall_impl; [exact Ho |]. intros o' Hn. exact Hn.
Qed.

Lemma customer_loop_answers w customers answers w' :
  orders_from w customers answers w' ->
  forall allOrders (st : State World),
    world st = w ->
    customer_loop customers allOrders st =
    ({| world := w'; cache := cache st; trace := trace st ++ requested answers |},
     Done (allOrders ++ aggregate answers)).
Proof.
  induction 1 as [w | w customer conn w1 rest answers w' Hreq Hrest IH];
    intros acc st Hw.
  - simpl. unfold ret, aggregate, requested. simpl. rewrite !app_nil_r.
    destruct st; simpl in *; subst; reflexivity.
  - simpl. unfold bind, call. rewrite Hw, Hreq.
    rewrite IH by reflexivity. simpl.
    unfold aggregate, requested. simpl. rewrite <- !app_assoc. reflexivity.
Qed.

Lemma aggregateOrders_answers phone (st : State World) w1 found answers w' :
  request_customers (customerQuery phone) (world st) = (w1, Done found) ->
  orders_from w1 (map Graph.node (Graph.edges found)) answers w' ->
  aggregateOrders phone st =
  ({| world := w'; cache := cache st;
      trace := trace st ++ EvCustomers (customerQuery phone) :: requested answers |},
   Done (aggregate answers)).
Proof.
  intros Hcust Hord. unfold aggregateOrders, bind, call. rewrite Hcust.
  rewrite (customer_loop_answers _ _ _ _ Hord) by reflexivity. simpl.
  rewrite <- app_assoc. reflexivity.
Qed.
End PhoneLookup.

(** C5. A phone lookup returns the orders of all matching customers newest
    first: the result is a rearrangement of the orders aggregated customer
    after customer, every order is no older than the ones behind it, and
    the orders of one instant stand in the order of the aggregation. *)
Theorem phone_lookup_newest_first_stable {World : Type} `{!Upstream World}
        (phone : string) (st : State World) (w1 : World)
        (found : Graph.Connection Graph.Customer)
        (answers : list (Graph.Customer * Graph.Connection Graph.OrderNode))
        (w' : World) :
  request_customers (customerQuery phone) (world st) = (w1, Done found) ->
  orders_from w1 (map Graph.node (Graph.edges found)) answers w' ->
  Forall (fun o => is_Some (order_time o)) (aggregate answers) ->
  exists res,
    searchOrdersByPhone phone st =
      ({| world := w'; cache := cache st;
          trace := trace st ++ EvCustomers (customerQuery phone) :: requested answers |},
       Done res) /\
    Permutation res (map graphSummary (aggregate answers)) /\
    StronglySorted (newer summary_time) res /\
    forall t, List.filter (at_time summary_time t) res =
              map graphSummary (List.filter (at_time order_time t) (aggregate answers)).
Proof.
  intros Hcust Hord Hvalid.
  exists (map graphSummary (Js.sort (desc_by order_time) (aggregate answers))).
  split; [| split; [| split]].
  - unfold searchOrdersByPhone, bind.
    rewrite (aggregateOrders_answers _ _ _ _ _ _ Hcust Hord). reflexivity.
  - apply Permutation_map, sort_perm.
  - apply sorted_graphSummary, sort_sorted, Hvalid.
  - intros t. rewrite filter_graphSummary, sort_filter. reflexivity.
Qed.

Lemma phone_lookup_newest_first_stable_witness :
  exists res,
    snd (searchOrdersByPhone Demo.phone1 Demo.start) = Done res /\
    map created_at res = [Demo.T3; Demo.T2; Demo.T1] /\
    StronglySorted (newer summary_time) res.
Proof.
  destruct (phone_lookup_newest_first_stable
              Demo.phone1 Demo.start 100
              (Demo.connection [Demo.ann; Demo.bob])
              [Demo.answer_for Demo.ann; Demo.answer_for Demo.bob]
              300)
    as (res & Hrun & _ & Hsorted & _).
  - reflexivity.
  - apply orders_cons with (w1 := 200); [reflexivity |].
    apply orders_cons with (w1 := 300); [reflexivity |].
    apply orders_nil.
  - vm_compute. repeat constructor; eexists; reflexivity.
  - exists res. split; [rewrite Hrun; reflexivity |]. split; [| exact Hsorted].
    vm_compute in Hrun. inversion Hrun. reflexivity.
Defined.

(* ===================================================================== *)
(** ** Results too large for the store *)
(* ===================================================================== *)

Section Oversized.
Context {World : Type} `{!Upstream World}.

(** After a miss the key is not in the store: it was not there, or it was
    dead and the read removed it. *)
Lemma get_miss_absent (key : string) (now : Z) (c c1 : Cache) :
  NodeCache.get key now c = (c1, None) -> NodeCache.data c1 !! key = None.
Proof.
  unfold NodeCache.get. destruct (NodeCache.data c !! key) as [e |] eqn:He.
  - unfold NodeCache.check.
    destruct (negb (NodeCache.t e =? 0) && (NodeCache.t e <? now)).
    + intros Heq. inversion Heq; subst.
      unfold NodeCache.del. rewrite He. simpl. apply lookup_delete_eq.
    + discriminate.
  - intros Heq. inversion Heq; subst. exact He.
Qed.

Lemma get_absent (key : string) (now : Z) (c : Cache) :
  NodeCache.data c !! key = None -> NodeCache.get key now c = (c, None).
Proof. unfold NodeCache.get. intros ->. reflexivity. Qed.

Lemma bind_ret_fst {A B : Type} (m : M World A) (g : A -> B) (st : State World) :
  fst (bind m (fun a => ret (g a)) st) = fst (m st).
Proof. unfold bind. destruct (m st) as [st1 [a | e |]]; reflexivity. Qed.

Lemma bind_call_first {A B : Type} (e : Event) (f : World -> World * Outcome A)
      (k : A -> M World B) (st : State World) :
  (forall a s, exists evs, trace (fst (k a s)) = trace s ++ evs) ->
  exists evs, trace (fst (bind (call e f) k st)) = trace st ++ e :: evs.
Proof.
  intros Hk. unfold bind, call. destruct (f (world st)) as [w [a | err |]]; simpl.
  - destruct (Hk a {| world := w; cache := cache st; trace := trace st ++ [e] |})
      as (evs & Hevs).
    exists evs. rewrite Hevs. simpl. rewrite <- app_assoc. reflexivity.
  - exists []. reflexivity.
  - exists []. reflexivity.
Qed.

Lemma email_lookup_starts_upstream fuel email (st : State World) :
  exists evs,
    trace (fst (searchOrdersByEmail (S fuel) email st)) =
    trace st ++ EvGet (first_page_url email) :: evs.
Proof.
  unfold searchOrdersByEmail. rewrite bind_ret_fst.
  cbn [email_loop]. rewrite first_page_url_truthy.
  apply bind_call_first. intros r s.
  destruct (email_loop_upstream_only fuel ([] ++ Rest.data_orders r) (next_page r) s)
    as [_ (evs & Hevs & _)].
  exists evs. exact Hevs.
Qed.

Lemma phone_lookup_starts_upstream phone (st : State World) :
  exists evs,
    trace (fst (searchOrdersByPhone phone st)) =
    trace st ++ EvCustomers (customerQuery phone) :: evs.
Proof.
  unfold searchOrdersByPhone. rewrite bind_ret_fst.
  unfold aggregateOrders. apply bind_call_first. intros found s.
  destruct (customer_loop_upstream_only (map Graph.node (Graph.edges found)) [] s)
    as [_ (evs & Hevs & _)].
  exists evs. exact Hevs.
Qed.

Lemma search_then_send_extends (key : string) (search : M World (list OrderSummary))
      (st : State World) :
  exists evs,
    trace (fst (bind search (store_and_send key) st)) =
    trace (fst (search st)) ++ evs.
Proof.
  unfold bind. destruct (search st) as [s1 [orders | e |]]; simpl.
  - destruct (store_and_send_trace key orders s1) as (evs & Hevs & _).
    exists evs. exact Hevs.
  - exists []. rewrite app_nil_r. reflexivity.
  - exists []. rewrite app_nil_r. reflexivity.
Qed.

Lemma store_and_send_oversized (key : string) (orders : list OrderSummary)
      (st : State World) :
  1000 < Z.of_nat (length orders) ->
  store_and_send key orders st = (st, Done (json orders)).
Proof.
  intros Hlen. unfold store_and_send, bind, ret.
  destruct (Z.of_nat (length orders) <=? 1000) eqn:Hle; [lia | reflexivity].
Qed.

(** A lookup on a store without the key goes upstream at once. *)
Lemma miss_goes_upstream fuel contact_type contact_info (s : State World) :
  contact_type = "email" \/ contact_type = "phone" ->
  NodeCache.data (cache s) !! cacheKey contact_type contact_info = None ->
  exists e evs,
    trace (fst (get_orders (S fuel) contact_type contact_info s)) =
      trace s ++ EvCacheGet (cacheKey contact_type contact_info) :: e :: evs /\
    is_upstream e = true.
Proof.
  intros Hct Habsent. unfold get_orders. rewrite try_catch_ret_fst.
  set (key := cacheKey contact_type contact_info) in *.
  unfold bind at 1. rewrite cache_get_inv.
  rewrite (get_absent key _ _ Habsent). cbn [fst snd].
  set (s1 := {| world := world s; cache := cache s;
                trace := trace s ++ [EvCacheGet key] |}).
  assert (Hgoal : forall (search : M World (list OrderSummary)) e,
             is_upstream e = true ->
             (exists evs, trace (fst (search s1)) = trace s1 ++ e :: evs) ->
             exists e' evs,
               trace (fst (bind search (store_and_send key) s1)) =
                 trace s ++ EvCacheGet key :: e' :: evs /\ is_upstream e' = true).
  { intros search e He (evs & Hevs).
    destruct (search_then_send_extends key search s1) as (evs2 & Hevs2).
    exists e, (evs ++ evs2). split; [| exact He].
    rewrite Hevs2, Hevs. subst s1. simpl. rewrite <- !app_assoc. reflexivity. }
  destruct Hct as [-> | ->]; cbn [String.eqb Ascii.eqb Bool.eqb].
  - eapply Hgoal; [| apply email_lookup_starts_upstream]. reflexivity.
  - eapply Hgoal; [| apply phone_lookup_starts_upstream]. reflexivity.
Qed.
End Oversized.

(** C6. When the store has no live entry for the contact and the strategy
    comes back with more than 1000 orders, the handler answers 200 with all
    of them and writes nothing: the key is not in the store afterwards, and
    the same request, asked again in any later world, starts with an
    upstream call right after its read of the store. *)
Theorem oversized_result_is_sent_but_not_cached {World : Type} `{!Upstream World}
        (fuel : nat) (contact_type contact_info : string)
        (st st2 : State World) (c1 : Cache) (orders : list OrderSummary) :
  let key := cacheKey contact_type contact_info in
  let st1 := {| world := world st; cache := c1;
                trace := trace st ++ [EvCacheGet key] |} in
  NodeCache.get key (Date_now (world st)) (cache st) = (c1, None) ->
  (contact_type = "email" /\
   searchOrdersByEmail fuel contact_info st1 = (st2, Done orders)) \/
  (contact_type = "phone" /\
   searchOrdersByPhone contact_info st1 = (st2, Done orders)) ->
  1000 < Z.of_nat (length orders) ->
  get_orders fuel contact_type contact_info st = (st2, Done (json orders)) /\
  NodeCache.data (cache st2) !! key = None /\
  forall (fuel' : nat) (w : World) (tr : list Event),
    exists e evs,
      trace (fst (get_orders (S fuel') contact_type contact_info
                             {| world := w; cache := cache st2; trace := tr |})) =
        tr ++ EvCacheGet key :: e :: evs /\
      is_upstream e = true.
Proof.
  intros key st1 Hmiss Hsearch Hlen.
  assert (Hcache : cache st2 = c1).
  { destruct Hsearch as [[_ Hrun] | [_ Hrun]].
    - pose proof (searchOrdersByEmail_upstream_only fuel contact_info st1) as [Hc _].
      rewrite Hrun in Hc. exact Hc.
    - pose proof (searchOrdersByPhone_upstream_only contact_info st1) as [Hc _].
      rewrite Hrun in Hc. exact Hc. }
  assert (Habsent : NodeCache.data (cache st2) !! key = None).
  { rewrite Hcache. eapply get_miss_absent, Hmiss. }
  split; [| split].
  - unfold get_orders, try_catch. fold key. unfold bind at 1.
    rewrite cache_get_inv, Hmiss. cbn [fst snd]. fold st1.
    destruct Hsearch as [[-> Hrun] | [-> Hrun]]; cbn [String.eqb Ascii.eqb Bool.eqb];
      unfold bind; rewrite Hrun; rewrite store_and_send_oversized by exact Hlen;
      reflexivity.
  - exact Habsent.
  - intros fuel' w tr.
    apply (miss_goes_upstream fuel' contact_type contact_info
             {| world := w; cache := cache st2; trace := tr |}).
    + destruct Hsearch as [[-> _] | [-> _]]; [left | right]; reflexivity.
    + exact Habsent.
Qed.

Lemma oversized_result_is_sent_but_not_cached_witness :
  get_orders 10 "email" Demo.email_bulk Demo.start =
    (Demo.after_bulk, Done (json Demo.bulk_orders)) /\
  length Demo.bulk_orders = 1001%nat /\
  NodeCache.data (cache Demo.after_bulk) !! cacheKey "email" Demo.email_bulk = None /\
  forall (fuel' : nat) (w : Demo.World) (tr : list Event),
    exists e evs,
      trace (fst (get_orders (S fuel') "email" Demo.email_bulk
                             {| world := w; cache := cache Demo.after_bulk;
                                trace := tr |})) =
        tr ++ EvCacheGet (cacheKey "email" Demo.email_bulk) :: e :: evs /\
      is_upstream e = true.
Proof.
  destruct (oversized_result_is_sent_but_not_cached
              10 "email" Demo.email_bulk Demo.start Demo.after_bulk
              empty_cache Demo.bulk_orders) as (Hrun & Habsent & Hagain).
  - vm_compute. reflexivity.
  - left. split; [reflexivity | vm_compute; reflexivity].
  - vm_compute. reflexivity.
  - split; [exact Hrun |]. split; [vm_compute; reflexivity |].
    split; [exact Habsent | exact Hagain].
Defined.

(* ===================================================================== *)
(** ** Contact types other than "email" and "phone" *)
(* ===================================================================== *)

(** A request whose contact_type is neither "email" nor "phone" reads the
    store and nothing else: no upstream call is made, a miss is answered
    with 400, and a hit is answered with the cached list. *)
Lemma invalid_type_only_reads_the_store {World : Type} `{!Upstream World}
      (fuel : nat) (contact_type contact_info : string) (st : State World) :
  contact_type <> "email"%string ->
  contact_type <> "phone"%string ->
  let key := cacheKey contact_type contact_info in
  let read := NodeCache.get key (Date_now (world st)) (cache st) in
  get_orders fuel contact_type contact_info st =
    ({| world := world st; cache := fst read; trace := trace st ++ [EvCacheGet key] |},
     Done (match snd read with
           | Some cached => json cached
           | None => {| status := 400; body := ErrorMessage "Invalid contact type" |}
           end)).
Proof.
  intros Hemail Hphone key read.
  apply String.eqb_neq in Hemail. apply String.eqb_neq in Hphone.
  unfold get_orders, try_catch. fold key. unfold bind at 1.
  rewrite cache_get_inv. fold read. cbn [fst snd].
  destruct (snd read) as [cached |].
  - reflexivity.
  - rewrite Hemail, Hphone. reflexivity.
Qed.

(** C7 fails on the code. After the lookup ("email", "a-b@example.com") has
    filled the store, the request with contact_type "email-a" and
    contact_info "b@example.com" builds the same key,
    "email-a-b@example.com": it is answered 200 with the orders of the
    other contact, not 400. No upstream call is made. *)
Theorem invalid_contact_type_is_served_from_the_store :
  "email-a"%string <> "email"%string /\
  "email-a"%string <> "phone"%string /\
  get_orders 10 "email-a" "b@example.com" Demo.after_email1 =
    ({| world := world Demo.after_email1;
        cache := cache Demo.after_email1;
        trace := trace Demo.after_email1 ++ [EvCacheGet "email-a-b@example.com"] |},
     Done {| status := 200;
             body := Orders (map restSummary [Demo.o1001; Demo.o1002; Demo.o1003]) |}).
Proof.
  split; [discriminate |]. split; [discriminate |].
  vm_compute. reflexivity.
Qed.

(* ===================================================================== *)
(** ** The normalisers: status and tracking *)
(* ===================================================================== *)



Section FetchedOrders.
Context {World : Type} `{!Upstream World}.



(** The page sequence from a world and a url is the only one. *)
Lemma pages_from_unique w url pages1 w1 :
  pages_from w url pages1 w1 ->
  forall pages2 w2, pages_from w url pages2 w2 -> pages1 = pages2 /\ w1 = w2.
Proof.
  induction 1 as [w url r w1 Hget Hnext | w url r wa url' rest w1 Hget Hnext Hrest IH];
    intros pages2 w2 H2; inversion H2; subst;
    match goal with
    | Ha : shopifyApi_get ?u ?w = _, Hb : shopifyApi_get ?u ?w = _ |- _ =>
        rewrite Ha in Hb; inversion Hb; subst
    end.
  - split; reflexivity.
  - congruence.
  - congruence.
  - match goal with
    | Ha : next_page ?r = Some _, Hb : next_page ?r = Some _ |- _ =>
        rewrite Ha in Hb; inversion Hb; subst
    end.
    match goal with
    | Hp : pages_from _ _ _ w2 |- _ => destruct (IH _ _ Hp) as [-> ->]
    end.
    split; reflexivity.
Qed.

(** The answers a customer list gets from a world are the only ones. *)
Lemma orders_from_unique w customers answers1 w1 :
  orders_from w customers answers1 w1 ->
  forall answers2 w2,
    orders_from w customers answers2 w2 -> answers1 = answers2 /\ w1 = w2.
Proof.
  induction 1 as [w | w c conn wa rest answers w1 Hreq Hrest IH];
    intros answers2 w2 H2; inversion H2; subst.
  - split; reflexivity.
  - match goal with
    | Ha : request_orders ?q ?w = _, Hb : request_orders ?q ?w = _ |- _ =>
        rewrite Ha in Hb; inversion Hb; subst
    end.
    match goal with
    | Hp : orders_from _ _ _ w2 |- _ => destruct (IH _ _ Hp) as [-> ->]
    end.
    split; reflexivity.
Qed.

End FetchedOrders.




(** C9. An order without fulfillments has no tracking info in either
    variant; a REST order with fulfillments has the tracking number,
    company and url of the first one, whatever they are; a graph order has
    tracking info exactly when it has a first fulfillment with a first
    tracking entry. *)
Theorem tracking_info_by_variant :
  (forall o : Rest.Order,
      Rest.fulfillments o = None \/ Rest.fulfillments o = Some [] ->
      tracking_info (restSummary o) = None) /\
  (forall o : Graph.Order,
      Graph.fulfillments (Graph.order_node o) = None \/
      Graph.fulfillments (Graph.order_node o) = Some [] ->
      tracking_info (graphSummary o) = None) /\
  (forall (o : Rest.Order) f0 fs,
      Rest.fulfillments o = Some (f0 :: fs) ->
      tracking_info (restSummary o) =
      Some {| tracking_number := Rest.tracking_number f0;
              tracking_company := Rest.tracking_company f0;
              tracking_url := Rest.tracking_url f0 |}) /\
  (forall o : Graph.Order,
      tracking_info (graphSummary o) <> None <->
      exists f0 fs t0 ts,
        Graph.fulfillments (Graph.order_node o) = Some (f0 :: fs) /\
        Graph.trackingInfo f0 = t0 :: ts).
Proof.
  split; [| split; [| split]].
  - intros o [Hf | Hf]; unfold restSummary; simpl; rewrite Hf; reflexivity.
  - intros o [Hf | Hf]; unfold graphSummary; simpl; rewrite Hf; reflexivity.
  - intros o f0 fs Hf. unfold restSummary; simpl. rewrite Hf. reflexivity.
  - intros o. unfold graphSummary; simpl.
    destruct (Graph.fulfillments (Graph.order_node o)) as [[| f0 fs] |].
    + split; [intros Hn; contradiction | intros (f0 & fs & t0 & ts & Hf & _); discriminate].
    + destruct (Graph.trackingInfo f0) as [| t0 ts] eqn:Ht.
      * split; [intros Hn; contradiction |].
        intros (f0' & fs' & t0 & ts & Hf & Ht'). inversion Hf; subst.
        rewrite Ht in Ht'. discriminate.
      * split; [| discriminate]. intros _. exists f0, fs, t0, ts.
        split; [reflexivity | exact Ht].
    + split; [intros Hn; contradiction | intros (f0 & fs & t0 & ts & Hf & _); discriminate].
Qed.

Lemma tracking_info_by_variant_witness :
  tracking_info (restSummary Demo.o1001) = None /\
  tracking_info (restSummary Demo.o1003) = None /\
  tracking_info (graphSummary Demo.no_status_order) = None /\
  tracking_info (restSummary Demo.o1002) =
    Some {| tracking_number := Some "1Z999"%string;
            tracking_company := Some "UPS"%string;
            tracking_url := None |}.
Proof.
  destruct tracking_info_by_variant as (Hrest0 & Hgraph0 & Hrest1 & _).
  split; [apply Hrest0; right; reflexivity |].
  split; [apply Hrest0; left; reflexivity |].
  split; [apply Hgraph0; right; reflexivity |].
  apply (Hrest1 Demo.o1002 Demo.shipped []). reflexivity.
Defined.

(* ===================================================================== *)
(** ** Line items of a phone lookup *)
(* ===================================================================== *)

Section LineItems.
Context {World : Type} `{!Upstream World}.

Local Abbreviation within_ten :=
  (fun o : Graph.Order =>
     (length (Graph.edges (Graph.lineItems (Graph.order_node o))) <= 10)%nat).

Lemma customer_loop_within_ten customers :
  honours_first ->
  forall allOrders (st st' : State World) res,
    Forall within_ten allOrders ->
    customer_loop customers allOrders st = (st', Done res) ->
    Forall within_ten res.
Proof.
  intros Hfirst. induction customers as [| c rest IH]; intros acc st st' res Hacc Hrun.
  - simpl in Hrun. unfold ret in Hrun. inversion Hrun; subst. exact Hacc.
  - simpl in Hrun. apply bind_done in Hrun as (st1 & conn & Hcall & Hrest).
    apply call_inv in Hcall as (w1 & Hreq & _).
    apply Hfirst in Hreq. simpl in Hreq.
    eapply IH; [| exact Hrest].
    apply Forall_app. split; [exact Hacc |].
    apply Forall_map. exact Hreq.
Qed.

Lemma aggregateOrders_within_ten phone (st st' : State World) res :
  honours_first ->
  aggregateOrders phone st = (st', Done res) ->
  Forall within_ten res.
Proof.
  intros Hfirst Hrun. unfold aggregateOrders in Hrun.
  apply bind_done in Hrun as (st1 & found & _ & Hloop).
  eapply customer_loop_within_ten; [exact Hfirst | constructor | exact Hloop].
Qed.
End LineItems.

(** C10. When the graph endpoint returns no more line items than the order
    query asks for (ten), every order of a phone lookup has at most ten
    [line_items], and its [items_count] is the sum of the quantities of
    those, whatever else the order holds upstream. *)
Theorem phone_lookup_counts_fetched_line_items {World : Type} `{!Upstream World}
        (phone : string) (st st' : State World) (res : list OrderSummary) :
  honours_first ->
  searchOrdersByPhone phone st = (st', Done res) ->
  Forall (fun s => (length (line_items s) <= 10)%nat /\
                   items_count s = quantity_sum (line_items s)) res.
Proof.
  intros Hfirst Hrun.
  apply searchOrdersByPhone_done in Hrun as (agg & Hagg & ->).
  apply Forall_map.
  eapply Permutation_Forall; [symmetry; apply sort_perm |].
  eapply Forall_impl; [eapply aggregateOrders_within_ten; eassumption |].
  intros o Ho. split.
  - unfold graphSummary; simpl. rewrite length_map. exact Ho.
  - apply graphSummary_items_count.
Qed.

Lemma demo_honours_first : @honours_first Demo.World Demo.shop.
Proof.
  intros q w w' conn Hreq. simpl in Hreq. unfold Demo.orders in Hreq.
  inversion Hreq; subst. unfold Demo.orders_answer, Demo.connection. simpl.
  apply Forall_map, Forall_map, Forall_forall. intros n _. simpl.
  rewrite length_firstn. lia.
Qed.

Lemma phone_lookup_counts_fetched_line_items_witness :
  Forall (fun s => (length (line_items s) <= 10)%nat /\
                   items_count s = quantity_sum (line_items s))
         (match snd (searchOrdersByPhone Demo.phone1 Demo.start) with
          | Done l => l
          | _ => []
          end) /\
  (map (fun n => length (Graph.edges (Graph.lineItems n)))
       (default [] (Demo.assoc (Graph.c_id Demo.ann) Demo.store)) = [12; 1])%nat /\
  map (fun s => (order_number s, length (line_items s), items_count s))
      (match snd (searchOrdersByPhone Demo.phone1 Demo.start) with
       | Done l => l
       | _ => []
       end) =
    [("#2003"%string, 1%nat, 1); ("#2002"%string, 1%nat, 4); ("#2001"%string, 10%nat, 20)].
Proof.
  split; [| split].
  - apply (phone_lookup_counts_fetched_line_items
             Demo.phone1 Demo.start (fst (searchOrdersByPhone Demo.phone1 Demo.start))).
    + exact demo_honours_first.
    + vm_compute. reflexivity.
  - vm_compute. reflexivity.
  - vm_compute. reflexivity.
Defined.

(* ===================================================================== *)
(** ** What the store can hold *)
(* ===================================================================== *)

Lemma small_values_empty : small_values empty_cache.
Proof.
  intros key e He. unfold empty_cache, NodeCache.create in He; simpl in He.
  rewrite lookup_empty in He. discriminate.
Qed.

Lemma del_small (key : string) (c : Cache) :
  small_values c -> small_values (NodeCache.del key c).
Proof.
  intros Hs. unfold NodeCache.del.
  destruct (NodeCache.data c !! key) as [e0 |]; [| exact Hs].
  intros k e He. simpl in He.
  destruct (decide (key = k)) as [-> | Hne].
  - rewrite lookup_delete_eq in He. discriminate.
  - rewrite lookup_delete_ne in He by exact Hne. eapply Hs, He.
Qed.

Lemma get_small (key : string) (now : Z) (c : Cache) :
  small_values c -> small_values (fst (NodeCache.get key now c)).
Proof.
  intros Hs. unfold NodeCache.get.
  destruct (NodeCache.data c !! key) as [e |]; [| exact Hs].
  unfold NodeCache.check.
  destruct (negb (NodeCache.t e =? 0) && (NodeCache.t e <? now)); simpl.
  - apply del_small, Hs.
  - exact Hs.
Qed.

Lemma get_hit_small (key : string) (now : Z) (c : Cache) (cached : list OrderSummary) :
  small_values c ->
  snd (NodeCache.get key now c) = Some cached ->
  Z.of_nat (length cached) <= 1000.
Proof.
  intros Hs. unfold NodeCache.get.
  destruct (NodeCache.data c !! key) as [e |] eqn:He; [| discriminate].
  unfold NodeCache.check.
  destruct (negb (NodeCache.t e =? 0) && (NodeCache.t e <? now)); simpl.
  - discriminate.
  - intros Heq. inversion Heq; subst. eapply Hs, He.
Qed.

Lemma set_small (key : string) (value : list OrderSummary) (now : Z) (c : Cache) :
  Z.of_nat (length value) <= 1000 ->
  small_values c -> small_values (fst (NodeCache.set key value now c)).
Proof.
  intros Hlen Hs. unfold NodeCache.set.
  destruct (_ && _); simpl; [exact Hs |].
  intros k e He. simpl in He.
  destruct (decide (key = k)) as [-> | Hne].
  - rewrite lookup_insert_eq in He. inversion He; subst. exact Hlen.
  - rewrite lookup_insert_ne in He by exact Hne. eapply Hs, He.
Qed.

Section StoreContents.
Context {World : Type} `{!Upstream World}.

Lemma search_then_send_small (key : string) (search : M World (list OrderSummary))
      (st : State World) :
  upstream_only st (fst (search st)) ->
  small_values (cache st) ->
  small_values (cache (fst (bind search (store_and_send key) st))).
Proof.
  intros [Hc _] Hs. unfold bind.
  destruct (search st) as [s1 [orders | e |]]; simpl in *; try (rewrite Hc; exact Hs).
  unfold store_and_send, bind.
  destruct (Z.of_nat (length orders) <=? 1000) eqn:Hle.
  - pose proof (cache_set_fst key orders s1) as Hset.
    assert (Hsmall : small_values (cache (fst (cache_set key orders s1)))).
    { rewrite Hset. simpl. apply set_small; [lia | rewrite Hc; exact Hs]. }
    destruct (cache_set key orders s1) as [s2 [b | e |]]; exact Hsmall.
  - simpl. rewrite Hc. exact Hs.
Qed.

(** The handler never leaves a list of more than 1000 orders in the store. *)
Lemma get_orders_small fuel contact_type contact_info (st : State World) :
  small_values (cache st) ->
  small_values (cache (fst (get_orders fuel contact_type contact_info st))).
Proof.
  intros Hs. unfold get_orders. rewrite try_catch_ret_fst.
  unfold bind at 1. rewrite cache_get_inv.
  set (st1 := {| world := world st; cache := _; trace := _ |}).
  assert (Hs1 : small_values (cache st1)) by (apply get_small, Hs).
  destruct (snd (NodeCache.get _ _ _)) as [cached |]; [exact Hs1 |].
  destruct (String.eqb contact_type "email").
  - apply search_then_send_small;
      [apply searchOrdersByEmail_upstream_only | exact Hs1].
  - destruct (String.eqb contact_type "phone").
    + apply search_then_send_small;
        [apply searchOrdersByPhone_upstream_only | exact Hs1].
    + exact Hs1.
Qed.

(** So an answer of more than 1000 orders never comes out of the store. *)
Lemma oversized_answer_was_a_miss fuel contact_type contact_info
      (st st' : State World) (orders : list OrderSummary) :
  small_values (cache st) ->
  get_orders fuel contact_type contact_info st = (st', Done (json orders)) ->
  1000 < Z.of_nat (length orders) ->
  snd (NodeCache.get (cacheKey contact_type contact_info)
                     (Date_now (world st)) (cache st)) = None.
Proof.
  intros Hs Hrun Hlen.
  destruct (snd (NodeCache.get _ _ _)) as [cached |] eqn:Hread; [| reflexivity].
  exfalso. pose proof (get_hit_small _ _ _ _ Hs Hread) as Hsmall.
  unfold get_orders, try_catch in Hrun. unfold bind at 1 in Hrun.
  rewrite cache_get_inv, Hread in Hrun. simpl in Hrun.
  unfold ret, json in Hrun. inversion Hrun; subst. lia.
Qed.
End StoreContents.

(** With the store full, a lookup that would be cached is fetched in full
    and then answered 500: the write throws inside the handler's [try]. *)
Example full_store_fails_the_request :
  let st := {| world := 0; cache := Demo.full_cache; trace := [] |} in
  snd (get_orders 10 "email" Demo.email1 st) =
    Done {| status := 500;
            body := ErrorMessage
                      "An error occurred while fetching the order information" |} /\
  length (List.filter is_upstream (trace (fst (get_orders 10 "email" Demo.email1 st))))
    = 3%nat.
Proof. vm_compute. split; reflexivity. Qed.

(* ===================================================================== *)
(** ** Reads and writes of the store, one at a time *)
(* ===================================================================== *)

Lemma get_alive (key : string) (now : Z) (c : Cache)
      (e : NodeCache.Entry (list OrderSummary)) :
  NodeCache.data c !! key = Some e ->
  alive_at now e ->
  NodeCache.get key now c = (c, Some (NodeCache.v e)).
Proof.
  intros He Ha. unfold NodeCache.get. rewrite He. unfold NodeCache.check.
  destruct (negb (NodeCache.t e =? 0) && (NodeCache.t e <? now)) eqn:Hd; [| reflexivity].
  exfalso. apply andb_true_iff in Hd as [H1 H2].
  apply negb_true_iff, Z.eqb_neq in H1. apply Z.ltb_lt in H2.
  destruct Ha; lia.
Qed.

Lemma get_dead (key : string) (now : Z) (c : Cache)
      (e : NodeCache.Entry (list OrderSummary)) :
  NodeCache.data c !! key = Some e ->
  NodeCache.t e <> 0 ->
  NodeCache.t e < now ->
  NodeCache.get key now c = (NodeCache.del key c, None).
Proof.
  intros He Hne Hlt. unfold NodeCache.get. rewrite He. unfold NodeCache.check.
  apply Z.eqb_neq in Hne. apply Z.ltb_lt in Hlt. rewrite Hne, Hlt. reflexivity.
Qed.

Lemma set_stores (key : string) (value : list OrderSummary) (now : Z) (c : Cache) :
  NodeCache.options c = cache_options ->
  NodeCache.stats_keys c < 1000 ->
  snd (NodeCache.set key value now c) = NodeCache.Ret true /\
  NodeCache.data (fst (NodeCache.set key value now c)) !! key =
    Some {| NodeCache.t := now + 3600000; NodeCache.v := value |}.
Proof.
  intros Ho Hk. unfold NodeCache.set, NodeCache.wrap. rewrite Ho. simpl.
  destruct (NodeCache.stats_keys c >=? 1000) eqn:Hfull; [lia |]. simpl.
  split; [reflexivity |]. rewrite lookup_insert_eq. reflexivity.
Qed.

Lemma del_other (key key' : string) (c : Cache) :
  key <> key' ->
  NodeCache.data (NodeCache.del key c) !! key' = NodeCache.data c !! key'.
Proof.
  intros Hne. unfold NodeCache.del.
  destruct (NodeCache.data c !! key); [| reflexivity].
  simpl. apply lookup_delete_ne, Hne.
Qed.

Lemma get_other (key key' : string) (now : Z) (c : Cache) :
  key <> key' ->
  NodeCache.data (fst (NodeCache.get key now c)) !! key' = NodeCache.data c !! key'.
Proof.
  intros Hne. unfold NodeCache.get.
  destruct (NodeCache.data c !! key) as [e |]; [| reflexivity].
  unfold NodeCache.check.
  destruct (negb (NodeCache.t e =? 0) && (NodeCache.t e <? now)); simpl.
  - apply del_other, Hne.
  - reflexivity.
Qed.

Lemma set_other (key key' : string) (value : list OrderSummary) (now : Z) (c : Cache) :
  key <> key' ->
  NodeCache.data (fst (NodeCache.set key value now c)) !! key' = NodeCache.data c !! key'.
Proof.
  intros Hne. unfold NodeCache.set.
  destruct (_ && _); simpl; [reflexivity |].
  apply lookup_insert_ne, Hne.
Qed.

Lemma del_keys (key key' : string) (c : Cache) :
  is_Some (NodeCache.data (NodeCache.del key c) !! key') ->
  is_Some (NodeCache.data c !! key').
Proof.
  unfold NodeCache.del. destruct (NodeCache.data c !! key) as [e |] eqn:He; [| tauto].
  simpl. destruct (decide (key = key')) as [-> | Hne].
  - rewrite lookup_delete_eq. intros [x Hx]. discriminate.
  - rewrite lookup_delete_ne by exact Hne. tauto.
Qed.

Lemma get_keys (key key' : string) (now : Z) (c : Cache) :
  is_Some (NodeCache.data (fst (NodeCache.get key now c)) !! key') ->
  is_Some (NodeCache.data c !! key').
Proof.
  unfold NodeCache.get. destruct (NodeCache.data c !! key) as [e |]; [| tauto].
  unfold NodeCache.check.
  destruct (negb (NodeCache.t e =? 0) && (NodeCache.t e <? now)); simpl.
  - apply del_keys.
  - tauto.
Qed.

Lemma set_keys (key key' : string) (value : list OrderSummary) (now : Z) (c : Cache) :
  is_Some (NodeCache.data (fst (NodeCache.set key value now c)) !! key') ->
  key' = key \/ is_Some (NodeCache.data c !! key').
Proof.
  unfold NodeCache.set. destruct (_ && _); simpl; [tauto |].
  destruct (decide (key = key')) as [-> | Hne].
  - intros _. left. reflexivity.
  - rewrite lookup_insert_ne by exact Hne. tauto.
Qed.

(** What the timer's check keeps, it keeps because deletions keep it. *)
Lemma checkData_keeps (P : Cache -> Prop) (now : Z) (c : Cache) :
  (forall key c0, P c0 -> P (NodeCache.del key c0)) ->
  P c -> P (NodeCache.checkData now c).
Proof.
  intros Hdel. unfold NodeCache.checkData.
  generalize (map_to_list (NodeCache.data c)) as l. intros l. revert c.
  induction l as [| [k e] l IH]; intros c Hc; simpl; [exact Hc |].
  apply IH. unfold NodeCache.check.
  destruct (negb (NodeCache.t e =? 0) && (NodeCache.t e <? now)); simpl.
  - apply Hdel, Hc.
  - exact Hc.
Qed.

Lemma keyed_empty : keyed empty_cache.
Proof.
  intros key [x Hx]. unfold empty_cache, NodeCache.create in Hx. simpl in Hx.
  rewrite lookup_empty in Hx. discriminate.
Qed.

Lemma del_keyed (key : string) (c : Cache) : keyed c -> keyed (NodeCache.del key c).
Proof. intros Hk key' Hs. apply Hk. eapply del_keys, Hs. Qed.

Lemma get_keyed (key : string) (now : Z) (c : Cache) :
  keyed c -> keyed (fst (NodeCache.get key now c)).
Proof. intros Hk key' Hs. apply Hk. eapply get_keys, Hs. Qed.

Lemma set_keyed (key : string) (value : list OrderSummary) (now : Z) (c : Cache) :
  (exists contact_info,
      key = cacheKey "email" contact_info \/ key = cacheKey "phone" contact_info) ->
  keyed c -> keyed (fst (NodeCache.set key value now c)).
Proof.
  intros Hkey Hk key' Hs. apply set_keys in Hs as [-> | Hs]; [exact Hkey | apply Hk, Hs].
Qed.

(* ===================================================================== *)
(** ** What a request does to the store *)
(* ===================================================================== *)

Section Requests.
Context {World : Type} `{!Upstream World}.

Lemma search_then_send_cache (key : string) (search : M World (list OrderSummary))
      (st : State World) :
  upstream_only st (fst (search st)) ->
  cache (fst (bind search (store_and_send key) st)) = cache st \/
  exists orders now,
    Z.of_nat (length orders) <= 1000 /\
    cache (fst (bind search (store_and_send key) st)) =
      fst (NodeCache.set key orders now (cache st)).
Proof.
  intros [Hc _]. unfold bind.
  destruct (search st) as [s1 [orders | e |]]; simpl in *; try (left; exact Hc).
  unfold store_and_send, bind.
  destruct (Z.of_nat (length orders) <=? 1000) eqn:Hle.
  - right. exists orders, (Date_now (world s1)). split; [lia |].
    pose proof (cache_set_fst key orders s1) as Hset.
    destruct (cache_set key orders s1) as [s2 [b | e |]];
      simpl in *; subst s2; simpl; rewrite Hc; reflexivity.
  - left. simpl. exact Hc.
Qed.

(** After a request the store is what the read left, or that with one
    write of at most 1000 orders under the request's key; and a write
    happens only for a valid contact type. *)
Lemma get_orders_cache fuel contact_type contact_info (st : State World) :
  let key := cacheKey contact_type contact_info in
  let c1 := fst (NodeCache.get key (Date_now (world st)) (cache st)) in
  cache (fst (get_orders fuel contact_type contact_info st)) = c1 \/
  ((contact_type = "email"%string \/ contact_type = "phone"%string) /\
   exists orders now,
     Z.of_nat (length orders) <= 1000 /\
     cache (fst (get_orders fuel contact_type contact_info st)) =
       fst (NodeCache.set key orders now c1)).
Proof.
  intros key c1.
  remember (cache (fst (get_orders fuel contact_type contact_info st))) as c' eqn:Hc'.
  unfold get_orders in Hc'. rewrite try_catch_ret_fst in Hc'. fold key in Hc'.
  unfold bind at 1 in Hc'. rewrite cache_get_inv in Hc'. fold c1 in Hc'.
  set (st1 := {| world := world st; cache := c1; trace := _ |}) in Hc'.
  destruct (snd (NodeCache.get _ _ _)) as [cached |]; [left; exact Hc' |].
  destruct (String.eqb contact_type "email") eqn:Hemail.
  - apply String.eqb_eq in Hemail.
    destruct (search_then_send_cache key (searchOrdersByEmail fuel contact_info) st1
                (searchOrdersByEmail_upstream_only _ _ _)) as [Hsame | Hset].
    + left. rewrite Hc'. exact Hsame.
    + right. split; [left; exact Hemail |]. rewrite Hc'. exact Hset.
  - destruct (String.eqb contact_type "phone") eqn:Hphone.
    + apply String.eqb_eq in Hphone.
      destruct (search_then_send_cache key (searchOrdersByPhone contact_info) st1
                  (searchOrdersByPhone_upstream_only _ _)) as [Hsame | Hset].
      * left. rewrite Hc'. exact Hsame.
      * right. split; [right; exact Hphone |]. rewrite Hc'. exact Hset.
    + left. exact Hc'.
Qed.

Lemma get_orders_wf fuel contact_type contact_info (st : State World) :
  cache_wf (cache st) ->
  cache_wf (cache (fst (get_orders fuel contact_type contact_info st))).
Proof.
  intros Hwf.
  destruct (get_orders_cache fuel contact_type contact_info st)
    as [-> | (_ & orders & now & _ & ->)].
  - apply get_wf, Hwf.
  - apply set_wf, get_wf, Hwf.
Qed.

Lemma get_orders_keyed fuel contact_type contact_info (st : State World) :
  keyed (cache st) ->
  keyed (cache (fst (get_orders fuel contact_type contact_info st))).
Proof.
  intros Hk.
  destruct (get_orders_cache fuel contact_type contact_info st)
    as [-> | (Hct & orders & now & _ & ->)].
  - apply get_keyed, Hk.
  - apply set_keyed; [| apply get_keyed, Hk].
    exists contact_info. destruct Hct as [-> | ->]; [left | right]; reflexivity.
Qed.

(** A store entry that is alive answers the request, whatever the contact
    type, with no upstream call and no change to the store. *)
Lemma hit_is_served fuel contact_type contact_info (st : State World)
      (e : NodeCache.Entry (list OrderSummary)) :
  NodeCache.data (cache st) !! cacheKey contact_type contact_info = Some e ->
  alive_at (Date_now (world st)) e ->
  get_orders fuel contact_type contact_info st =
    ({| world := world st; cache := cache st;
        trace := trace st ++ [EvCacheGet (cacheKey contact_type contact_info)] |},
     Done (json (NodeCache.v e))).
Proof.
  intros He Ha. unfold get_orders, try_catch. unfold bind at 1.
  rewrite cache_get_inv, (get_alive _ _ _ _ He Ha). reflexivity.
Qed.

(** A read that finds nothing alive sends a valid request upstream. *)
Lemma read_miss_goes_upstream fuel contact_type contact_info (s : State World) :
  contact_type = "email"%string \/ contact_type = "phone"%string ->
  snd (NodeCache.get (cacheKey contact_type contact_info)
                     (Date_now (world s)) (cache s)) = None ->
  exists e evs,
    trace (fst (get_orders (S fuel) contact_type contact_info s)) =
      trace s ++ EvCacheGet (cacheKey contact_type contact_info) :: e :: evs /\
    is_upstream e = true.
Proof.
  intros Hct Hmiss. unfold get_orders. rewrite try_catch_ret_fst.
  set (key := cacheKey contact_type contact_info) in *.
  unfold bind at 1. rewrite cache_get_inv, Hmiss.
  set (s1 := {| world := world s; cache := _; trace := trace s ++ [EvCacheGet key] |}).
  assert (Hgoal : forall (search : M World (list OrderSummary)) e,
             is_upstream e = true ->
             (exists evs, trace (fst (search s1)) = trace s1 ++ e :: evs) ->
             exists e' evs,
               trace (fst (bind search (store_and_send key) s1)) =
                 trace s ++ EvCacheGet key :: e' :: evs /\ is_upstream e' = true).
  { intros search e He (evs & Hevs).
    destruct (search_then_send_extends key search s1) as (evs2 & Hevs2).
    exists e, (evs ++ evs2). split; [| exact He].
    rewrite Hevs2, Hevs. subst s1. simpl. rewrite <- !app_assoc. reflexivity. }
  destruct Hct as [-> | ->]; cbn [String.eqb Ascii.eqb Bool.eqb].
  - eapply Hgoal; [| apply email_lookup_starts_upstream]. reflexivity.
  - eapply Hgoal; [| apply phone_lookup_starts_upstream]. reflexivity.
Qed.

(** A lookup that comes back with at most 1000 orders, on a store with
    room, leaves them under the request's key, to die 3600 seconds after
    the moment of the write. *)
Lemma lookup_stores_entry fuel contact_type contact_info
      (st st2 : State World) (c1 : Cache) (orders : list OrderSummary) :
  let key := cacheKey contact_type contact_info in
  let st1 := {| world := world st; cache := c1;
                trace := trace st ++ [EvCacheGet key] |} in
  cache_wf (cache st) ->
  NodeCache.get key (Date_now (world st)) (cache st) = (c1, None) ->
  (contact_type = "email"%string /\
   searchOrdersByEmail fuel contact_info st1 = (st2, Done orders)) \/
  (contact_type = "phone"%string /\
   searchOrdersByPhone contact_info st1 = (st2, Done orders)) ->
  Z.of_nat (length orders) <= 1000 ->
  (size (NodeCache.data c1) < 1000)%nat ->
  get_orders fuel contact_type contact_info st =
    ({| world := world st2;
        cache := fst (NodeCache.set key orders (Date_now (world st2)) c1);
        trace := trace st2 ++ [EvCacheSet key] |},
     Done (json orders)) /\
  NodeCache.data (fst (NodeCache.set key orders (Date_now (world st2)) c1)) !! key =
    Some {| NodeCache.t := Date_now (world st2) + 3600000; NodeCache.v := orders |}.
Proof.
  intros key st1 Hwf Hmiss Hsearch Hlen Hroom.
  assert (Hwf1 : cache_wf c1).
  { pose proof (get_wf key (Date_now (world st)) (cache st) Hwf) as H1.
    rewrite Hmiss in H1. exact H1. }
  destruct Hwf1 as (Ho & Hk & _).
  assert (Hcache : cache st2 = c1).
  { destruct Hsearch as [[_ Hrun] | [_ Hrun]].
    - pose proof (searchOrdersByEmail_upstream_only fuel contact_info st1) as [Hc _].
      rewrite Hrun in Hc. exact Hc.
    - pose proof (searchOrdersByPhone_upstream_only contact_info st1) as [Hc _].
      rewrite Hrun in Hc. exact Hc. }
  destruct (set_stores key orders (Date_now (world st2)) c1 Ho ltac:(lia))
    as [Hret Hentry].
  split; [| exact Hentry].
  assert (Hsend : store_and_send key orders st2 =
                  ({| world := world st2;
                      cache := fst (NodeCache.set key orders (Date_now (world st2)) c1);
                      trace := trace st2 ++ [EvCacheSet key] |},
                   Done (json orders))).
  { unfold store_and_send, bind.
    destruct (Z.of_nat (length orders) <=? 1000) eqn:Hle; [| lia].
    unfold cache_set. rewrite Hcache.
    destruct (NodeCache.set key orders (Date_now (world st2)) c1) as [c2 r].
    simpl in Hret. subst r. reflexivity. }
  unfold get_orders, try_catch. fold key. unfold bind at 1.
  rewrite cache_get_inv, Hmiss. cbn [fst snd]. fold st1.
  destruct Hsearch as [[-> Hrun] | [-> Hrun]]; cbn [String.eqb Ascii.eqb Bool.eqb];
    unfold bind; rewrite Hrun, Hsend; reflexivity.
Qed.
End Requests.

(** X1. A request changes the store under its own key only: the entry of
    every other key is after the request what it was before, present or
    not. *)
Theorem request_leaves_other_contacts_alone {World : Type} `{!Upstream World}
        (fuel : nat) (contact_type contact_info : string) (st : State World)
        (other : string) :
  other <> cacheKey contact_type contact_info ->
  NodeCache.data (cache (fst (get_orders fuel contact_type contact_info st))) !! other =
  NodeCache.data (cache st) !! other.
Proof.
  intros Hne.
  destruct (get_orders_cache fuel contact_type contact_info st)
    as [-> | (_ & orders & now & _ & ->)].
  - apply get_other. congruence.
  - rewrite set_other by congruence. apply get_other. congruence.
Qed.

Lemma request_leaves_other_contacts_alone_witness :
  NodeCache.data (cache (fst (get_orders 10 "phone" Demo.phone1 Demo.after_email1)))
    !! cacheKey "email" Demo.email1 =
  NodeCache.data (cache Demo.after_email1) !! cacheKey "email" Demo.email1.
Proof.
  apply (request_leaves_other_contacts_alone
           10 "phone" Demo.phone1 Demo.after_email1 (cacheKey "email" Demo.email1)).
  vm_compute. discriminate.
Defined.

Lemma reachable_invariants {World : Type} `{!Upstream World} (st : State World) :
  reachable st ->
  cache_wf (cache st) /\ small_values (cache st) /\ keyed (cache st).
Proof.
  induction 1 as [w | st fuel ct ci _ (Hwf & Hsmall & Hkeyed)
                  | st w _ IH | st _ (Hwf & Hsmall & Hkeyed)]; simpl.
  - split; [apply cache_wf_empty | split; [apply small_values_empty | apply keyed_empty]].
  - split; [apply get_orders_wf, Hwf |].
    split; [apply get_orders_small, Hsmall | apply get_orders_keyed, Hkeyed].
  - exact IH.
  - split; [apply checkData_wf, Hwf |].
    split; apply checkData_keeps;
      solve [exact Hsmall | exact Hkeyed | intros; apply del_small; assumption
             | intros; apply del_keyed; assumption].
Qed.

(** X2. In every state the service can reach from an empty store, by
    requests, by the passing of time and by the store's timer, the store
    holds at most 1000 keys, no stored list is longer than 1000 orders, and
    every key is "email-" or "phone-" followed by a contact. *)
Theorem reachable_store_is_sound {World : Type} `{!Upstream World}
        (st : State World) :
  reachable st ->
  (size (NodeCache.data (cache st)) <= 1000)%nat /\
  small_values (cache st) /\
  keyed (cache st).
Proof.
  intros Hr. destruct (reachable_invariants st Hr) as ((_ & Hk & Hmax) & Hsmall & Hkeyed).
  split; [lia | split; assumption].
Qed.

Lemma reachable_store_is_sound_witness :
  let st := fst (get_orders 10 "phone" Demo.phone1 Demo.after_email1) in
  (size (NodeCache.data (cache st)) <= 1000)%nat /\
  small_values (cache st) /\
  keyed (cache st).
Proof.
  apply (reachable_store_is_sound
           (fst (get_orders 10 "phone" Demo.phone1 Demo.after_email1))).
  apply reach_request. apply (reach_request Demo.start 10 "email" Demo.email1).
  apply (reach_start 0).
Defined.

(** X3. A lookup that misses the store, comes back with at most 1000
    orders and finds room in the store is answered from the store from then
    on: the same request, at any moment up to 3600 seconds after the write,
    gets the same orders with 200, makes no upstream call and leaves the
    store as it is. *)
Theorem cached_lookup_is_served_for_an_hour {World : Type} `{!Upstream World}
        (fuel : nat) (contact_type contact_info : string)
        (st st2 : State World) (c1 : Cache) (orders : list OrderSummary) :
  let key := cacheKey contact_type contact_info in
  let st1 := {| world := world st; cache := c1;
                trace := trace st ++ [EvCacheGet key] |} in
  cache_wf (cache st) ->
  NodeCache.get key (Date_now (world st)) (cache st) = (c1, None) ->
  (contact_type = "email"%string /\
   searchOrdersByEmail fuel contact_info st1 = (st2, Done orders)) \/
  (contact_type = "phone"%string /\
   searchOrdersByPhone contact_info st1 = (st2, Done orders)) ->
  Z.of_nat (length orders) <= 1000 ->
  (size (NodeCache.data c1) < 1000)%nat ->
  forall (fuel' : nat) (w : World) (tr : list Event),
    Date_now w <= Date_now (world st2) + 3600000 ->
    get_orders fuel' contact_type contact_info
               {| world := w;
                  cache := cache (fst (get_orders fuel contact_type contact_info st));
                  trace := tr |} =
    ({| world := w;
        cache := cache (fst (get_orders fuel contact_type contact_info st));
        trace := tr ++ [EvCacheGet key] |},
     Done (json orders)).
Proof.
  intros key st1 Hwf Hmiss Hsearch Hlen Hroom fuel' w tr Hnow.
  destruct (lookup_stores_entry fuel contact_type contact_info st st2 c1 orders
              Hwf Hmiss Hsearch Hlen Hroom) as [Hrun Hentry].
  fold key in Hrun, Hentry. rewrite Hrun. cbn [fst cache].
  apply (hit_is_served fuel' contact_type contact_info
           {| world := w; cache := _; trace := tr |} _ Hentry).
  right. simpl. exact Hnow.
Qed.

Lemma cached_lookup_is_served_for_an_hour_witness :
  get_orders 0 "email" Demo.email1 (Cases.later 3600000) =
    ({| world := 3600300; cache := cache Demo.after_email1;
        trace := [EvCacheGet "email-a-b@example.com"] |},
     Done (json (map restSummary [Demo.o1001; Demo.o1002; Demo.o1003]))).
Proof.
  apply (cached_lookup_is_served_for_an_hour
           10 "email" Demo.email1 Demo.start
           (fst (searchOrdersByEmail 10 Demo.email1
                   {| world := 0; cache := empty_cache;
                      trace := [EvCacheGet "email-a-b@example.com"] |}))
           empty_cache (map restSummary [Demo.o1001; Demo.o1002; Demo.o1003])).
  - exact cache_wf_empty.
  - vm_compute. reflexivity.
  - left. split; [reflexivity | vm_compute; reflexivity].
  - vm_compute. discriminate.
  - vm_compute. lia.
  - vm_compute. discriminate.
Defined.

(** X4. The same entry is dead once more than 3600 seconds have passed
    since the write (the clock reading a time from the epoch on): the same
    request then goes upstream again, right after its read of the store. *)
Theorem cached_lookup_expires_after_an_hour {World : Type} `{!Upstream World}
        (fuel : nat) (contact_type contact_info : string)
        (st st2 : State World) (c1 : Cache) (orders : list OrderSummary) :
  let key := cacheKey contact_type contact_info in
  let st1 := {| world := world st; cache := c1;
                trace := trace st ++ [EvCacheGet key] |} in
  cache_wf (cache st) ->
  NodeCache.get key (Date_now (world st)) (cache st) = (c1, None) ->
  (contact_type = "email"%string /\
   searchOrdersByEmail fuel contact_info st1 = (st2, Done orders)) \/
  (contact_type = "phone"%string /\
   searchOrdersByPhone contact_info st1 = (st2, Done orders)) ->
  Z.of_nat (length orders) <= 1000 ->
  (size (NodeCache.data c1) < 1000)%nat ->
  0 <= Date_now (world st2) ->
  forall (fuel' : nat) (w : World) (tr : list Event),
    Date_now (world st2) + 3600000 < Date_now w ->
    exists e evs,
      trace (fst (get_orders (S fuel') contact_type contact_info
                   {| world := w;
                      cache := cache (fst (get_orders fuel contact_type contact_info st));
                      trace := tr |})) =
        tr ++ EvCacheGet key :: e :: evs /\
      is_upstream e = true.
Proof.
  intros key st1 Hwf Hmiss Hsearch Hlen Hroom Hclock fuel' w tr Hnow.
  destruct (lookup_stores_entry fuel contact_type contact_info st st2 c1 orders
              Hwf Hmiss Hsearch Hlen Hroom) as [Hrun Hentry].
  fold key in Hrun, Hentry. rewrite Hrun. cbn [fst cache].
  apply (read_miss_goes_upstream fuel' contact_type contact_info
           {| world := w; cache := _; trace := tr |}).
  - destruct Hsearch as [[-> _] | [-> _]]; [left | right]; reflexivity.
  - cbn [world cache]. fold key.
    rewrite (get_dead _ _ _ _ Hentry); [reflexivity | simpl; lia | simpl; lia].
Qed.

Lemma cached_lookup_expires_after_an_hour_witness :
  exists e evs,
    trace (fst (get_orders 1 "email" Demo.email1 (Cases.later 3600001))) =
      [] ++ EvCacheGet "email-a-b@example.com" :: e :: evs /\
    is_upstream e = true.
Proof.
  apply (cached_lookup_expires_after_an_hour
           10 "email" Demo.email1 Demo.start
           (fst (searchOrdersByEmail 10 Demo.email1
                   {| world := 0; cache := empty_cache;
                      trace := [EvCacheGet "email-a-b@example.com"] |}))
           empty_cache (map restSummary [Demo.o1001; Demo.o1002; Demo.o1003])).
  - exact cache_wf_empty.
  - vm_compute. reflexivity.
  - left. split; [reflexivity | vm_compute; reflexivity].
  - vm_compute. discriminate.
  - vm_compute. lia.
  - vm_compute. discriminate.
  - vm_compute. reflexivity.
Defined.

(** X5. When the strategy throws, whatever the error, the handler answers
    500 with its one fixed message; nothing is written, and the key is not
    in the store afterwards. *)
Theorem upstream_failure_is_answered_500 {World : Type} `{!Upstream World}
        (fuel : nat) (contact_type contact_info : string)
        (st st2 : State World) (c1 : Cache) (e : Error) :
  let key := cacheKey contact_type contact_info in
  let st1 := {| world := world st; cache := c1;
                trace := trace st ++ [EvCacheGet key] |} in
  NodeCache.get key (Date_now (world st)) (cache st) = (c1, None) ->
  (contact_type = "email"%string /\
   searchOrdersByEmail fuel contact_info st1 = (st2, Throw e)) \/
  (contact_type = "phone"%string /\
   searchOrdersByPhone contact_info st1 = (st2, Throw e)) ->
  get_orders fuel contact_type contact_info st = (st2, Done server_error) /\
  cache st2 = c1 /\
  NodeCache.data (cache st2) !! key = None.
Proof.
  intros key st1 Hmiss Hsearch.
  assert (Hcache : cache st2 = c1).
  { destruct Hsearch as [[_ Hrun] | [_ Hrun]].
    - pose proof (searchOrdersByEmail_upstream_only fuel contact_info st1) as [Hc _].
      rewrite Hrun in Hc. exact Hc.
    - pose proof (searchOrdersByPhone_upstream_only contact_info st1) as [Hc _].
      rewrite Hrun in Hc. exact Hc. }
  split; [| split; [exact Hcache |]].
  - unfold get_orders, try_catch. fold key. unfold bind at 1.
    rewrite cache_get_inv, Hmiss. cbn [fst snd]. fold st1.
    destruct Hsearch as [[-> Hrun] | [-> Hrun]]; cbn [String.eqb Ascii.eqb Bool.eqb];
      unfold bind; rewrite Hrun; reflexivity.
  - rewrite Hcache. eapply get_miss_absent, Hmiss.
Qed.

Lemma upstream_failure_is_answered_500_witness :
  get_orders 10 "email" Cases.email_broken Cases.start =
    ({| world := 2%N; cache := empty_cache;
        trace := [EvCacheGet "email-c@example.com";
                  EvGet (first_page_url Cases.email_broken);
                  EvGet (Demo.page_url "gone")] |},
     Done server_error) /\
  cache (fst (get_orders 10 "email" Cases.email_broken Cases.start)) = empty_cache.
Proof.
  destruct (upstream_failure_is_answered_500
              10 "email" Cases.email_broken Cases.start
              {| world := 2%N; cache := empty_cache;
                 trace := [EvCacheGet "email-c@example.com";
                           EvGet (first_page_url Cases.email_broken);
                           EvGet (Demo.page_url "gone")] |}
              empty_cache Cases.gone) as (Hrun & _ & _).
  - vm_compute. reflexivity.
  - left. split; [reflexivity | vm_compute; reflexivity].
  - split; [exact Hrun | rewrite Hrun; reflexivity].
Defined.

(** X6. When the store already holds 1000 keys, a lookup that misses it and
    comes back with at most 1000 orders is fetched in full and then
    answered 500: the write is refused inside the handler's [try], the
    orders are not sent and the store stays as it was. *)
Theorem full_store_fails_cacheable_lookup {World : Type} `{!Upstream World}
        (fuel : nat) (contact_type contact_info : string)
        (st st2 : State World) (c1 : Cache) (orders : list OrderSummary) :
  let key := cacheKey contact_type contact_info in
  let st1 := {| world := world st; cache := c1;
                trace := trace st ++ [EvCacheGet key] |} in
  cache_wf (cache st) ->
  NodeCache.get key (Date_now (world st)) (cache st) = (c1, None) ->
  (contact_type = "email"%string /\
   searchOrdersByEmail fuel contact_info st1 = (st2, Done orders)) \/
  (contact_type = "phone"%string /\
   searchOrdersByPhone contact_info st1 = (st2, Done orders)) ->
  Z.of_nat (length orders) <= 1000 ->
  size (NodeCache.data c1) = 1000%nat ->
  get_orders fuel contact_type contact_info st =
    ({| world := world st2; cache := c1; trace := trace st2 ++ [EvCacheSet key] |},
     Done server_error).
Proof.
  intros key st1 Hwf Hmiss Hsearch Hlen Hfull.
  assert (Hwf1 : cache_wf c1).
  { pose proof (get_wf key (Date_now (world st)) (cache st) Hwf) as H1.
    rewrite Hmiss in H1. exact H1. }
  assert (Hcache : cache st2 = c1).
  { destruct Hsearch as [[_ Hrun] | [_ Hrun]].
    - pose proof (searchOrdersByEmail_upstream_only fuel contact_info st1) as [Hc _].
      rewrite Hrun in Hc. exact Hc.
    - pose proof (searchOrdersByPhone_upstream_only contact_info st1) as [Hc _].
      rewrite Hrun in Hc. exact Hc. }
  assert (Hsend : store_and_send key orders st2 =
                  ({| world := world st2; cache := c1;
                      trace := trace st2 ++ [EvCacheSet key] |},
                   Throw (CacheError "ECACHEFULL"))).
  { unfold store_and_send, bind.
    destruct (Z.of_nat (length orders) <=? 1000) eqn:Hle; [| lia].
    unfold cache_set. rewrite Hcache.
    rewrite (set_full key orders (Date_now (world st2)) c1 Hwf1 Hfull). reflexivity. }
  unfold get_orders, try_catch. fold key. unfold bind at 1.
  rewrite cache_get_inv, Hmiss. cbn [fst snd]. fold st1.
  destruct Hsearch as [[-> Hrun] | [-> Hrun]]; cbn [String.eqb Ascii.eqb Bool.eqb];
    unfold bind; rewrite Hrun, Hsend; reflexivity.
Qed.

Lemma demo_pages_from :
  pages_from (0 : Demo.World) (first_page_url Demo.email1)
             [ (first_page_url Demo.email1, Demo.page1);
               (Demo.page_url "p2", Demo.page2);
               (Demo.page_url "p3", Demo.page3) ]
             300.
Proof.
  apply pages_more with (w1 := 100) (url' := Demo.page_url "p2");
    [reflexivity | reflexivity |].
  apply pages_more with (w1 := 200) (url' := Demo.page_url "p3");
    [reflexivity | reflexivity |].
  apply pages_last; reflexivity.
Qed.

Lemma full_store_fails_cacheable_lookup_witness :
  get_orders 10 "email" Demo.email1
             {| world := 0; cache := Demo.full_cache; trace := [] |} =
    ({| world := 300; cache := Demo.full_cache;
        trace := [EvCacheGet "email-a-b@example.com";
                  EvGet (first_page_url Demo.email1);
                  EvGet (Demo.page_url "p2");
                  EvGet (Demo.page_url "p3");
                  EvCacheSet "email-a-b@example.com"] |},
     Done server_error).
Proof.
  apply (full_store_fails_cacheable_lookup
           10 "email" Demo.email1
           {| world := 0; cache := Demo.full_cache; trace := [] |}
           {| world := 300; cache := Demo.full_cache;
              trace := [EvCacheGet "email-a-b@example.com";
                        EvGet (first_page_url Demo.email1);
                        EvGet (Demo.page_url "p2");
                        EvGet (Demo.page_url "p3")] |}
           Demo.full_cache (map restSummary [Demo.o1001; Demo.o1002; Demo.o1003])).
  - exact (run_ops_wf Demo.fill).
  - apply get_absent. vm_compute. reflexivity.
  - left. split; [reflexivity |].
    pose proof (email_loop_pages _ _ _ _ demo_pages_from 10 []
                  {| world := 0; cache := Demo.full_cache;
                     trace := [EvCacheGet "email-a-b@example.com"] |}
                  eq_refl (first_page_url_truthy Demo.email1)
                  ltac:(simpl; lia)) as Hloop.
    assert (Hrun : @searchOrdersByEmail Demo.World _ 10 Demo.email1
                     {| world := 0; cache := Demo.full_cache;
                        trace := [EvCacheGet "email-a-b@example.com"] |} =
                   ({| world := 300; cache := Demo.full_cache;
                       trace := [EvCacheGet "email-a-b@example.com";
                                 EvGet (first_page_url Demo.email1);
                                 EvGet (Demo.page_url "p2");
                                 EvGet (Demo.page_url "p3")] |},
                    Done (map restSummary [Demo.o1001; Demo.o1002; Demo.o1003])))
      by (unfold searchOrdersByEmail, bind; rewrite Hloop; reflexivity).
    exact Hrun.
  - vm_compute. discriminate.
  - vm_compute. reflexivity.
Defined.

Section Answers.
Context {World : Type} `{!Upstream World}.


Lemma store_and_send_settles (key : string) (orders : list OrderSummary)
      (st : State World) :
  snd (store_and_send key orders st) <> Pending.
Proof.
  unfold store_and_send, bind.
  destruct (Z.of_nat (length orders) <=? 1000).
  - unfold cache_set. destruct (NodeCache.set _ _ _ _) as [c' [b | code]];
      simpl; discriminate.
  - simpl. discriminate.
Qed.
End Answers.


(* ===================================================================== *)
(** ** Lookups that fail or never end *)
(* ===================================================================== *)

Section Failures.
Context {World : Type} `{!Upstream World}.

Lemma email_loop_fails w url pages bad e w' :
  pages_fail w url pages bad e w' ->
  forall fuel allOrders (st : State World),
    world st = w ->
    Js.truthy url = true ->
    (length pages < fuel)%nat ->
    email_loop fuel allOrders (Some url) st =
    ({| world := w'; cache := cache st;
        trace := trace st ++ fetched pages ++ [EvGet bad] |},
     Throw e).
Proof.
  induction 1 as [w url e w' Hget | w url r w1 url' rest bad e w' Hget Hnext Hrest IH];
    intros fuel acc st Hw Hurl Hfuel.
  - destruct fuel as [| fuel]; [simpl in Hfuel; lia |].
    simpl. rewrite Hurl. unfold bind, call. rewrite Hw, Hget. reflexivity.
  - destruct fuel as [| fuel]; [simpl in Hfuel; lia |].
    simpl. rewrite Hurl. unfold bind, call. rewrite Hw, Hget. rewrite Hnext.
    rewrite (IH fuel); simpl.
    + rewrite <- !app_assoc. reflexivity.
    + reflexivity.
    + eapply next_page_truthy, Hnext.
    + simpl in Hfuel. lia.
Qed.

Lemma email_loop_endless :
  always_more ->
  forall fuel allOrders url (st : State World),
    Js.truthy url = true ->
    exists evs,
      email_loop fuel allOrders (Some url) st =
        ({| world := world (fst (email_loop fuel allOrders (Some url) st));
            cache := cache st; trace := trace st ++ evs |},
         Pending) /\
      length evs = fuel /\
      Forall (fun ev => exists u, ev = EvGet u) evs.
Proof.
  intros Hmore. induction fuel as [| fuel IH]; intros acc url st Hurl.
  - exists []. simpl. rewrite Hurl. unfold pending. simpl. rewrite app_nil_r.
    destruct st; repeat split; constructor.
  - destruct (Hmore url (world st)) as (w' & r & url' & Hget & Hnext).
    pose proof (next_page_truthy _ _ Hnext) as Hurl'.
    simpl. rewrite Hurl. unfold bind, call. rewrite Hget, Hnext.
    destruct (IH (acc ++ Rest.data_orders r) url'
                 {| world := w'; cache := cache st; trace := trace st ++ [EvGet url] |}
                 Hurl') as (evs & Hrun & Hlen & Hall).
    exists (EvGet url :: evs). rewrite Hrun. simpl. rewrite <- app_assoc. simpl.
    split; [reflexivity |]. split; [lia |].
    constructor; [exists url; reflexivity | exact Hall].
Qed.

Lemma customer_loop_fails w customers answers bad e w' :
  orders_fail w customers answers bad e w' ->
  forall allOrders (st : State World),
    world st = w ->
    customer_loop customers allOrders st =
    ({| world := w'; cache := cache st;
        trace := trace st ++ requested answers ++
                 [EvOrders (orderQuery (Graph.c_id bad))] |},
     Throw e).
Proof.
  induction 1 as [w customer rest e w' Hreq
                 | w customer conn w1 rest answers bad e w' Hreq Hrest IH];
    intros acc st Hw.
  - simpl. unfold bind, call. rewrite Hw, Hreq. reflexivity.
  - simpl. unfold bind, call. rewrite Hw, Hreq.
    rewrite IH by reflexivity. simpl. unfold requested. simpl.
    rewrite <- !app_assoc. reflexivity.
Qed.
End Failures.

(** X8. When a page fetch of an email lookup throws, the lookup throws the
    same error: the orders of the pages already read are dropped, and no
    further fetch is made after the failed one. *)
Theorem email_lookup_aborts_on_failed_page {World : Type} `{!Upstream World}
        (email : string) (st : State World)
        (pages : list (string * Rest.Response)) (bad : string) (e : Error)
        (w' : World) (fuel : nat) :
  pages_fail (world st) (first_page_url email) pages bad e w' ->
  (length pages < fuel)%nat ->
  searchOrdersByEmail fuel email st =
    ({| world := w'; cache := cache st;
        trace := trace st ++ fetched pages ++ [EvGet bad] |},
     Throw e).
Proof.
  intros Hfail Hfuel. unfold searchOrdersByEmail, bind.
  rewrite (email_loop_fails _ _ _ _ _ _ Hfail fuel [] st eq_refl
             (first_page_url_truthy email) Hfuel).
  reflexivity.
Qed.

Lemma email_lookup_aborts_on_failed_page_witness :
  searchOrdersByEmail 2 Cases.email_broken Cases.start =
    ({| world := 2%N; cache := empty_cache;
        trace := [EvGet (first_page_url Cases.email_broken);
                  EvGet (Demo.page_url "gone")] |},
     Throw Cases.gone).
Proof.
  apply (email_lookup_aborts_on_failed_page
           Cases.email_broken Cases.start
           [(first_page_url Cases.email_broken,
             Demo.page [Demo.o1001] (Some (Demo.link (Demo.page_url "gone") "next")))]
           (Demo.page_url "gone") Cases.gone 2%N 2).
  - apply fail_later with (w1 := 1%N) (url' := Demo.page_url "gone");
      [reflexivity | reflexivity |].
    apply fail_here. reflexivity.
  - simpl. lia.
Defined.

(** X9. The paging loop has no bound of its own: against a service that
    names a next page in every answer, an email lookup is still pending
    after any number of turns, having made one fetch per turn. *)
Theorem email_lookup_never_ends_while_linked {World : Type} `{!Upstream World}
        (fuel : nat) (email : string) (st : State World) :
  always_more ->
  snd (searchOrdersByEmail fuel email st) = Pending /\
  exists evs,
    trace (fst (searchOrdersByEmail fuel email st)) = trace st ++ evs /\
    length evs = fuel /\
    Forall (fun ev => exists u, ev = EvGet u) evs.
Proof.
  intros Hmore.
  destruct (email_loop_endless Hmore fuel [] (first_page_url email) st
              (first_page_url_truthy email)) as (evs & Hrun & Hlen & Hall).
  unfold searchOrdersByEmail, bind. rewrite Hrun. simpl.
  split; [reflexivity |]. exists evs. split; [reflexivity | split; assumption].
Qed.

Lemma endless_always_more : @always_more nat Cases.endless.
Proof.
  intros url w. exists (S w), (Demo.page [Demo.o1001] (Some (Demo.link Cases.again "next"))),
                       Cases.again.
  split; reflexivity.
Qed.

Lemma email_lookup_never_ends_while_linked_witness :
  snd (searchOrdersByEmail 50 Demo.email1 Cases.loop_start) = Pending /\
  exists evs,
    trace (fst (searchOrdersByEmail 50 Demo.email1 Cases.loop_start)) =
      trace Cases.loop_start ++ evs /\
    length evs = 50%nat /\
    Forall (fun ev => exists u, ev = EvGet u) evs.
Proof.
  apply (email_lookup_never_ends_while_linked 50 Demo.email1 Cases.loop_start).
  exact endless_always_more.
Defined.

(** X10. When the order request of one customer throws, the phone lookup
    throws the same error: the orders of the customers already read are
    dropped, and the customers after the failed one are never asked for.
    *)
Theorem phone_lookup_aborts_on_failed_customer {World : Type} `{!Upstream World}
        (phone : string) (st : State World) (w1 : World)
        (found : Graph.Connection Graph.Customer)
        (answers : list (Graph.Customer * Graph.Connection Graph.OrderNode))
        (bad : Graph.Customer) (e : Error) (w' : World) :
  request_customers (customerQuery phone) (world st) = (w1, Done found) ->
  orders_fail w1 (map Graph.node (Graph.edges found)) answers bad e w' ->
  searchOrdersByPhone phone st =
    ({| world := w'; cache := cache st;
        trace := trace st ++
                 EvCustomers (customerQuery phone) ::
                 requested answers ++ [EvOrders (orderQuery (Graph.c_id bad))] |},
     Throw e).
Proof.
  intros Hcust Hfail. unfold searchOrdersByPhone, aggregateOrders, bind, call.
  rewrite Hcust.
  rewrite (customer_loop_fails _ _ _ _ _ _ Hfail) by reflexivity.
  simpl. rewrite <- app_assoc. reflexivity.
Qed.

Lemma phone_lookup_aborts_on_failed_customer_witness :
  searchOrdersByPhone "999" Cases.start =
    ({| world := 3%N; cache := empty_cache;
        trace := [EvCustomers (customerQuery "999");
                  EvOrders (orderQuery (Graph.c_id Demo.ann));
                  EvOrders (orderQuery (Graph.c_id Demo.bob))] |},
     Throw Cases.gone).
Proof.
  apply (phone_lookup_aborts_on_failed_customer
           "999" Cases.start 1%N
           (Demo.connection [Demo.ann; Demo.bob; Demo.cat])
           [Demo.answer_for Demo.ann] Demo.bob Cases.gone 3%N).
  - reflexivity.
  - apply orders_fail_later with (w1 := 2%N); [reflexivity |].
    apply orders_fail_here. reflexivity.
Defined.

(* ===================================================================== *)
(** ** The queue worker *)
(* ===================================================================== *)

(** X11. Given a task whose type is neither "email" nor "phone", the queue
    worker calls back with no error and an undefined result: it makes no
    upstream call and changes nothing. *)
Theorem worker_passes_over_other_types {World : Type} `{!Upstream World}
        (fuel : nat) (task : Task) (st : State World) :
  type task <> "email"%string ->
  type task <> "phone"%string ->
  requestQueue_worker fuel task st = (st, Done (CbResult None)).
Proof.
  intros Hemail Hphone.
  apply String.eqb_neq in Hemail. apply String.eqb_neq in Hphone.
  unfold requestQueue_worker, try_catch, bind. rewrite Hemail, Hphone. reflexivity.
Qed.

Lemma worker_passes_over_other_types_witness :
  requestQueue_worker 10 {| type := "order"; info := "#1001" |} Demo.start =
    (Demo.start, Done (CbResult None)).
Proof.
  apply (worker_passes_over_other_types 10 {| type := "order"; info := "#1001" |}
                                         Demo.start);
    discriminate.
Defined.

(** X12. The queue worker never reads or writes the store and never lets an
    exception out: it hands the orders of the strategy to the callback as a
    result, and an error of the strategy to the callback as an error. *)
Theorem worker_reports_through_the_callback {World : Type} `{!Upstream World}
        (fuel : nat) (task : Task) (st : State World) :
  upstream_only st (fst (requestQueue_worker fuel task st)) /\
  (forall e, snd (requestQueue_worker fuel task st) <> Throw e) /\
  (forall s found,
      (type task = "email"%string /\
       searchOrdersByEmail fuel (info task) st = (s, Done found)) \/
      (type task = "phone"%string /\
       searchOrdersByPhone (info task) st = (s, Done found)) ->
      requestQueue_worker fuel task st = (s, Done (CbResult (Some found)))) /\
  (forall s e,
      (type task = "email"%string /\
       searchOrdersByEmail fuel (info task) st = (s, Throw e)) \/
      (type task = "phone"%string /\
       searchOrdersByPhone (info task) st = (s, Throw e)) ->
      requestQueue_worker fuel task st = (s, Done (CbError e))).
Proof.
  assert (Hshape : forall search : M World (list OrderSummary),
             upstream_only st (fst (search st)) ->
             let run :=
               try_catch
                 (let* result := (let* found := search in ret (Some found)) in
                  ret (CbResult result))
                 (fun error => ret (CbError error)) st in
             upstream_only st (fst run) /\
             (forall e, snd run <> Throw e) /\
             (forall s found, search st = (s, Done found) ->
                              run = (s, Done (CbResult (Some found)))) /\
             (forall s e, search st = (s, Throw e) -> run = (s, Done (CbError e)))).
  { intros search Hup. unfold try_catch, bind.
    destruct (search st) as [s [found | e |]]; simpl in *.
    - split; [exact Hup |]. split; [discriminate |].
      split; [intros ? ? Heq; inversion Heq; reflexivity | discriminate].
    - split; [exact Hup |]. split; [discriminate |].
      split; [discriminate | intros ? ? Heq; inversion Heq; reflexivity].
    - split; [exact Hup |]. split; [discriminate |]. split; discriminate. }
  unfold requestQueue_worker.
  destruct (String.eqb (type task) "email") eqn:Hemail.
  - destruct (Hshape (searchOrdersByEmail fuel (info task))
                     (searchOrdersByEmail_upstream_only _ _ _))
      as (Hup & Hthrow & Hdone & Herr).
    apply String.eqb_eq in Hemail.
    split; [exact Hup |]. split; [exact Hthrow |]. split.
    + intros s found [[_ Hrun] | [Hphone _]]; [apply Hdone, Hrun | congruence].
    + intros s e [[_ Hrun] | [Hphone _]]; [apply Herr, Hrun | congruence].
  - destruct (String.eqb (type task) "phone") eqn:Hphone.
    + destruct (Hshape (searchOrdersByPhone (info task))
                       (searchOrdersByPhone_upstream_only _ _))
        as (Hup & Hthrow & Hdone & Herr).
      apply String.eqb_neq in Hemail.
      split; [exact Hup |]. split; [exact Hthrow |]. split.
      * intros s found [[He _] | [_ Hrun]]; [congruence | apply Hdone, Hrun].
      * intros s e [[He _] | [_ Hrun]]; [congruence | apply Herr, Hrun].
    + apply String.eqb_neq in Hemail, Hphone.
      unfold try_catch, bind, ret. simpl.
      split; [apply upstream_only_refl |]. split; [discriminate |].
      split; intros ? ? [[He _] | [Hp _]]; congruence.
Qed.

Lemma worker_reports_through_the_callback_witness :
  requestQueue_worker 10 {| type := "email"; info := Cases.email_broken |} Cases.start =
    ({| world := 2%N; cache := empty_cache;
        trace := [EvGet (first_page_url Cases.email_broken);
                  EvGet (Demo.page_url "gone")] |},
     Done (CbError Cases.gone)).
Proof.
  destruct (worker_reports_through_the_callback
              10 {| type := "email"; info := Cases.email_broken |} Cases.start)
    as (_ & _ & _ & Herr).
  apply Herr. left. split; [reflexivity | vm_compute; reflexivity].
Defined.

(* ===================================================================== *)
(** ** The next link, the first url and the phone query *)
(* ===================================================================== *)

(** X13. A response names a next page exactly when its link header has a
    position where the pattern matches; the url taken is the bracketed
    target at the first such position. *)
Theorem next_page_is_first_next_link (r : Rest.Response) (url : string) :
  next_page r = Some url <->
  exists h before after,
    Rest.headers_link r = Some h /\
    h = String.append before after /\
    Js.matches_here after url /\
    forall b a g,
      h = String.append b a ->
      (String.length b < String.length before)%nat ->
      ~ Js.matches_here a g.
Proof.
  unfold next_page. split.
  - destruct (Rest.headers_link r) as [h |]; [| discriminate].
    destruct (Js.truthy h); [| discriminate].
    intros Hm. apply match_next_leftmost in Hm as (before & after & Hh & Hm & Hleft).
    exists h, before, after. split; [reflexivity |]. split; [exact Hh |].
    split; [apply match_here_matches, Hm |].
    intros b a g Hba Hlt Hg. apply match_here_matches in Hg.
    rewrite (Hleft b a Hba Hlt) in Hg. discriminate.
  - intros (h & before & after & -> & Hh & Hm & Hleft).
    assert (Hnext : Js.match_next h = Some url).
    { apply match_next_leftmost. exists before, after.
      split; [exact Hh |]. split; [apply match_here_matches, Hm |].
      intros b a Hba Hlt. destruct (Js.match_here a) as [g |] eqn:Hg; [| reflexivity].
      exfalso. apply (Hleft b a g Hba Hlt). apply match_here_matches, Hg. }
    destruct h as [| c h]; [discriminate | exact Hnext].
Qed.

Lemma string_forall_app (p : ascii -> bool) (a b : string) :
  Js.string_forall p (String.append a b) =
  Js.string_forall p a && Js.string_forall p b.
Proof.
  induction a as [| c a IH]; [reflexivity |].
  rewrite append_cons. cbn [Js.string_forall]. rewrite IH, andb_assoc. reflexivity.
Qed.

Lemma encode_unit_safe (c : ascii) : Js.string_forall uri_safe (Js.encode_unit c) = true.
Proof. destruct c as [[] [] [] [] [] [] [] []]; vm_compute; reflexivity. Qed.

Lemma encodeURIComponent_safe (s : string) :
  Js.string_forall uri_safe (Js.encodeURIComponent s) = true.
Proof.
  induction s as [| c s IH]; [reflexivity |].
  cbn [Js.encodeURIComponent]. rewrite string_forall_app, encode_unit_safe, IH. reflexivity.
Qed.

(** X14. The first url of an email lookup carries the e-mail as the value
    of one query parameter: between "email=" and "&limit=250" there are
    only letters, digits, [- _ . ! ~ * ' ( )] and percent escapes, so no
    [&], [=], [?], [#], [/], [+] or space of the e-mail reaches the url. *)
Theorem first_page_url_confines_the_email (email : string) :
  exists value,
    first_page_url email =
      String.append "/orders.json?status=any&email=" (String.append value "&limit=250") /\
    Js.string_forall uri_safe value = true /\
    Js.string_forall (fun c => negb (uri_safe c)) "&=?#/+ " = true.
Proof.
  exists (Js.encodeURIComponent email). split; [reflexivity |].
  split; [apply encodeURIComponent_safe | reflexivity].
Qed.

Lemma decode_encode_unit (c : ascii) (rest : string) :
  decode_units (String.append (Js.encode_unit c) rest) = String c (decode_units rest).
Proof. destruct c as [[] [] [] [] [] [] [] []]; reflexivity. Qed.

Lemma append_assoc (a b c : string) :
  String.append (String.append a b) c = String.append a (String.append b c).
Proof.
  induction a as [| x a IH]; [reflexivity |].
  rewrite !append_cons, IH. reflexivity.
Qed.

Lemma decode_encoded (s rest : string) :
  decode_units (String.append (Js.encodeURIComponent s) rest) =
  String.append s (decode_units rest).
Proof.
  induction s as [| c s IH]; [reflexivity |].
  cbn [Js.encodeURIComponent]. rewrite append_assoc, decode_encode_unit, IH.
  reflexivity.
Qed.

Lemma length_append (a b : string) :
  String.length (String.append a b) = (String.length a + String.length b)%nat.
Proof.
  induction a as [| c a IH]; [reflexivity |].
  rewrite append_cons. cbn [String.length]. rewrite IH. reflexivity.
Qed.

Lemma append_inv_tail (a b s : string) :
  String.append a s = String.append b s -> a = b.
Proof.
  revert b. induction a as [| c a IH]; intros [| d b] Heq.
  - reflexivity.
  - apply (f_equal String.length) in Heq. rewrite append_nil, append_cons in Heq.
    cbn [String.length] in Heq. rewrite length_append in Heq. lia.
  - apply (f_equal String.length) in Heq. rewrite append_nil, append_cons in Heq.
    cbn [String.length] in Heq. rewrite length_append in Heq. lia.
  - rewrite !append_cons in Heq. injection Heq as -> Heq. f_equal. apply IH, Heq.
Qed.

Lemma append_inv_head (a x y : string) :
  String.append a x = String.append a y -> x = y.
Proof.
  induction a as [| c a IH]; intros Heq.
  - exact Heq.
  - rewrite !append_cons in Heq. injection Heq as Heq. apply IH, Heq.
Qed.

(** X15. The e-mail can be read back from the first url, so two different
    e-mails are never looked up under the same url. *)
Theorem first_page_url_tells_emails_apart (a b : string) :
  a <> b -> first_page_url a <> first_page_url b.
Proof.
  intros Hne Heq. apply Hne. unfold first_page_url in Heq.
  apply append_inv_head in Heq.
  apply (f_equal decode_units) in Heq.
  rewrite !decode_encoded in Heq.
  eapply append_inv_tail, Heq.
Qed.

Lemma first_page_url_tells_emails_apart_witness :
  first_page_url "a+b@example.com" <> first_page_url "a b@example.com".
Proof.
  apply (first_page_url_tells_emails_apart "a+b@example.com" "a b@example.com").
  discriminate.
Defined.

Lemma string_filter_app (p : ascii -> bool) (a b : string) :
  Js.string_filter p (String.append a b) =
  String.append (Js.string_filter p a) (Js.string_filter p b).
Proof.
  induction a as [| c a IH]; [reflexivity |].
  rewrite append_cons. cbn [Js.string_filter]. destruct (p c).
  - rewrite append_cons, IH. reflexivity.
  - exact IH.
Qed.

Lemma string_filter_all (p : ascii -> bool) (s : string) :
  Js.string_forall p (Js.string_filter p s) = true.
Proof.
  induction s as [| c s IH]; [reflexivity |].
  cbn [Js.string_filter]. destruct (p c) eqn:Hc; [| exact IH].
  cbn [Js.string_forall]. rewrite Hc, IH. reflexivity.
Qed.

Lemma string_filter_id (p : ascii -> bool) (s : string) :
  Js.string_forall p s = true -> Js.string_filter p s = s.
Proof.
  induction s as [| c s IH]; [reflexivity |].
  cbn [Js.string_forall Js.string_filter]. intros Hall.
  apply andb_true_iff in Hall as [Hc Hall]. rewrite Hc, (IH Hall). reflexivity.
Qed.

(** X16. The customer query of a phone lookup is "phone:" followed by the
    digits of the phone and nothing else: a phone made of digits goes out
    as it is, and a character that is not a digit, wherever it stands,
    makes no difference to the query (while the store key, built from the
    phone as typed, does differ). *)
Theorem phone_query_keeps_digits_only (a b : string) (c : ascii) :
  Js.is_digit c = false ->
  (exists digits,
      Graph.cq_query (customerQuery (String.append a (String c b))) =
        String.append "phone:" digits /\
      Js.string_forall Js.is_digit digits = true) /\
  customerQuery (String.append a (String c b)) = customerQuery (String.append a b) /\
  (Js.string_forall Js.is_digit (String.append a b) = true ->
   Graph.cq_query (customerQuery (String.append a b)) =
     String.append "phone:" (String.append a b)) /\
  cacheKey "phone" (String.append a (String c b)) <> cacheKey "phone" (String.append a b).
Proof.
  intros Hc. split; [| split; [| split]].
  - exists (Js.replace_non_digits (String.append a (String c b))).
    split; [reflexivity | apply string_filter_all].
  - unfold customerQuery, Js.replace_non_digits.
    rewrite !string_filter_app. cbn [Js.string_filter]. rewrite Hc. reflexivity.
  - intros Hall. unfold customerQuery, Js.replace_non_digits; simpl.
    rewrite (string_filter_id _ _ Hall). reflexivity.
  - unfold cacheKey. intros Heq. apply (f_equal String.length) in Heq.
    rewrite !length_append in Heq. cbn [String.length] in Heq. lia.
Qed.

Lemma phone_query_keeps_digits_only_witness :
  customerQuery "555-0100" = customerQuery "5550100" /\
  cacheKey "phone" "555-0100" <> cacheKey "phone" "5550100".
Proof.
  destruct (phone_query_keeps_digits_only "555" "0100" "-" eq_refl)
    as (_ & Hsame & _ & Hkey).
  split; [exact Hsame | exact Hkey].
Defined.

(* ===================================================================== *)
(** ** The second server *)
(* ===================================================================== *)

Section AnyStore.
Context {V : Type}.

Lemma any_get_alive (key : string) (now : Z) (c : NodeCache.Cache V)
      (e : NodeCache.Entry V) :
  NodeCache.data c !! key = Some e ->
  NodeCache.t e = 0 \/ now <= NodeCache.t e ->
  NodeCache.get key now c = (c, Some (NodeCache.v e)).
Proof.
  intros He Ha. unfold NodeCache.get. rewrite He. unfold NodeCache.check.
  destruct (negb (NodeCache.t e =? 0) && (NodeCache.t e <? now)) eqn:Hd; [| reflexivity].
  exfalso. apply andb_true_iff in Hd as [H1 H2].
  apply negb_true_iff, Z.eqb_neq in H1. apply Z.ltb_lt in H2.
  destruct Ha; lia.
Qed.

Lemma any_get_absent (key : string) (now : Z) (c : NodeCache.Cache V) :
  NodeCache.data c !! key = None -> NodeCache.get key now c = (c, None).
Proof. unfold NodeCache.get. intros ->. reflexivity. Qed.

Lemma any_get_miss (key : string) (now : Z) (c c1 : NodeCache.Cache V) :
  NodeCache.get key now c = (c1, None) ->
  NodeCache.data c1 !! key = None /\ NodeCache.options c1 = NodeCache.options c.
Proof.
  unfold NodeCache.get. destruct (NodeCache.data c !! key) as [e |] eqn:He.
  - unfold NodeCache.check.
    destruct (negb (NodeCache.t e =? 0) && (NodeCache.t e <? now)); [| discriminate].
    intros Heq. inversion Heq; subst. unfold NodeCache.del. rewrite He. simpl.
    split; [apply lookup_delete_eq | reflexivity].
  - intros Heq. inversion Heq; subst. split; [exact He | reflexivity].
Qed.

(** A store made without [maxKeys] takes every write. *)
Lemma any_set_unlimited (key : string) (value : V) (now : Z) (c : NodeCache.Cache V) :
  NodeCache.options c = Legacy.cache_options ->
  snd (NodeCache.set key value now c) = NodeCache.Ret true /\
  NodeCache.data (fst (NodeCache.set key value now c)) !! key =
    Some {| NodeCache.t := now + 3600000; NodeCache.v := value |}.
Proof.
  intros Ho. unfold NodeCache.set, NodeCache.wrap. rewrite Ho. simpl.
  split; [reflexivity |]. rewrite lookup_insert_eq. reflexivity.
Qed.
End AnyStore.

Section SecondServer.
Context {World : Type} `{!Legacy.Shop World}.

Lemma legacy_orders_hit (contact_type contact_info : string)
      (st : Legacy.State World) (e : NodeCache.Entry Legacy.Value) :
  NodeCache.data (Legacy.cache st) !! Legacy.ordersKey contact_type contact_info = Some e ->
  NodeCache.t e = 0 \/ Legacy.Date_now (Legacy.world st) <= NodeCache.t e ->
  Legacy.get_orders contact_type contact_info st =
    ({| Legacy.world := Legacy.world st; Legacy.cache := Legacy.cache st;
        Legacy.trace := Legacy.trace st ++
                        [Legacy.CacheGet (Legacy.ordersKey contact_type contact_info)] |},
     Done (Legacy.json (NodeCache.v e))).
Proof.
  intros He Ha. unfold Legacy.get_orders.
  rewrite (any_get_alive _ _ _ _ He Ha). reflexivity.
Qed.

Lemma legacy_details_hit (order_number : string)
      (st : Legacy.State World) (e : NodeCache.Entry Legacy.Value) :
  NodeCache.data (Legacy.cache st) !! Legacy.detailsKey order_number = Some e ->
  NodeCache.t e = 0 \/ Legacy.Date_now (Legacy.world st) <= NodeCache.t e ->
  Legacy.get_order_details order_number st =
    ({| Legacy.world := Legacy.world st; Legacy.cache := Legacy.cache st;
        Legacy.trace := Legacy.trace st ++
                        [Legacy.CacheGet (Legacy.detailsKey order_number)] |},
     Done (Legacy.json (NodeCache.v e))).
Proof.
  intros He Ha. unfold Legacy.get_order_details.
  rewrite (any_get_alive _ _ _ _ He Ha). reflexivity.
Qed.

(** A miss of [/get_orders] answered by the shop: the summaries are sent
    and stored, whatever their number and whatever the contact type. *)
Lemma legacy_orders_stored (contact_type contact_info : string)
      (st : Legacy.State World) (c1 : NodeCache.Cache Legacy.Value)
      (w2 : World) (r : Legacy.Response) :
  let key := Legacy.ordersKey contact_type contact_info in
  let request := Legacy.orders_request (Legacy.Date_now (Legacy.world st))
                                       contact_type contact_info in
  let value := Legacy.Summaries (map Legacy.summary (Legacy.data_orders r)) in
  NodeCache.options (Legacy.cache st) = Legacy.cache_options ->
  NodeCache.get key (Legacy.Date_now (Legacy.world st)) (Legacy.cache st) = (c1, None) ->
  Legacy.shopifyApi_get request (Legacy.world st) = (w2, Done r) ->
  Legacy.get_orders contact_type contact_info st =
    ({| Legacy.world := w2;
        Legacy.cache := fst (NodeCache.set key value (Legacy.Date_now w2) c1);
        Legacy.trace := Legacy.trace st ++
                        [Legacy.CacheGet key; Legacy.Get request; Legacy.CacheSet key] |},
     Done (Legacy.json value)) /\
  NodeCache.data (fst (NodeCache.set key value (Legacy.Date_now w2) c1)) !! key =
    Some {| NodeCache.t := Legacy.Date_now w2 + 3600000; NodeCache.v := value |}.
Proof.
  intros key request value Ho Hmiss Hget.
  destruct (any_get_miss _ _ _ _ Hmiss) as [_ Ho1]. rewrite Ho in Ho1.
  destruct (any_set_unlimited key value (Legacy.Date_now w2) c1 Ho1) as [Hret Hentry].
  split; [| exact Hentry].
  unfold Legacy.get_orders. fold key. rewrite Hmiss. cbv zeta. fold request.
  rewrite Hget. fold value.
  destruct (NodeCache.set key value (Legacy.Date_now w2) c1) as [c3 written].
  simpl in Hret. subst written. simpl. rewrite <- !app_assoc. reflexivity.
Qed.

Lemma legacy_details_stored (order_number : string)
      (st : Legacy.State World) (c1 : NodeCache.Cache Legacy.Value)
      (w2 : World) (r : Legacy.Response) (order : Legacy.Order)
      (others : list Legacy.Order) :
  let key := Legacy.detailsKey order_number in
  let request := Legacy.details_request order_number in
  let value := Legacy.OrderDetails (Legacy.details order) in
  NodeCache.options (Legacy.cache st) = Legacy.cache_options ->
  NodeCache.get key (Legacy.Date_now (Legacy.world st)) (Legacy.cache st) = (c1, None) ->
  Legacy.shopifyApi_get request (Legacy.world st) = (w2, Done r) ->
  Legacy.data_orders r = order :: others ->
  Legacy.get_order_details order_number st =
    ({| Legacy.world := w2;
        Legacy.cache := fst (NodeCache.set key value (Legacy.Date_now w2) c1);
        Legacy.trace := Legacy.trace st ++
                        [Legacy.CacheGet key; Legacy.Get request; Legacy.CacheSet key] |},
     Done (Legacy.json value)) /\
  NodeCache.data (fst (NodeCache.set key value (Legacy.Date_now w2) c1)) !! key =
    Some {| NodeCache.t := Legacy.Date_now w2 + 3600000; NodeCache.v := value |}.
Proof.
  intros key request value Ho Hmiss Hget Hfirst.
  destruct (any_get_miss _ _ _ _ Hmiss) as [_ Ho1]. rewrite Ho in Ho1.
  destruct (any_set_unlimited key value (Legacy.Date_now w2) c1 Ho1) as [Hret Hentry].
  split; [| exact Hentry].
  unfold Legacy.get_order_details. fold key. rewrite Hmiss. cbv zeta. fold request.
  rewrite Hget, Hfirst. fold value.
  destruct (NodeCache.set key value (Legacy.Date_now w2) c1) as [c3 written].
  simpl in Hret. subst written. simpl. rewrite <- !app_assoc. reflexivity.
Qed.
End SecondServer.

(** X17. In the second server's [/get_orders] the contact type is not
    checked: it becomes the name of a request parameter whose value is the
    contact, also when that name is "status", "created_at_min" or "limit",
    whose fixed value it then replaces. Only "fields" is lost: the fixed
    field list is written after it, and the request no longer depends on
    the contact. *)
Theorem legacy_contact_type_names_a_parameter {World : Type} `{!Legacy.Shop World}
        (now : Z) (contact_type contact_info : string) :
  (contact_type <> "fields"%string ->
   Legacy.params (Legacy.orders_request now contact_type contact_info) !! contact_type =
     Some contact_info) /\
  Legacy.params (Legacy.orders_request now contact_type contact_info) !! "fields"%string =
    Some Legacy.fields /\
  (contact_type = "fields"%string ->
   forall other,
     Legacy.orders_request now contact_type contact_info =
     Legacy.orders_request now contact_type other).
Proof.
  unfold Legacy.orders_request; simpl. split; [| split].
  - intros Hne. rewrite lookup_insert_ne by congruence. apply lookup_insert_eq.
  - apply lookup_insert_eq.
  - intros -> other. f_equal; rewrite ?insert_insert_eq; reflexivity.
Qed.

Lemma legacy_contact_type_names_a_parameter_witness :
  Legacy.params (@Legacy.orders_request Z Legacy.demo Legacy.new_year "limit" "1")
    !! "limit"%string = Some "1"%string /\
  @Legacy.orders_request Z Legacy.demo Legacy.new_year "fields" "a@example.com" =
  @Legacy.orders_request Z Legacy.demo Legacy.new_year "fields" "b@example.com".
Proof.
  split.
  - apply (legacy_contact_type_names_a_parameter Legacy.new_year "limit" "1").
    discriminate.
  - apply (legacy_contact_type_names_a_parameter Legacy.new_year "fields" "a@example.com").
    reflexivity.
Defined.

(** X18. In the second server, a [/get_orders] request that misses the
    store and is answered by the shop sends the summaries of that one
    response and stores them, whatever their number; the same request, at
    any moment up to 3600 seconds after the write, gets the same summaries
    from the store without an upstream call. *)
Theorem legacy_orders_are_stored_and_served {World : Type} `{!Legacy.Shop World}
        (contact_type contact_info : string)
        (st : Legacy.State World) (c1 : NodeCache.Cache Legacy.Value)
        (w2 : World) (r : Legacy.Response) :
  let key := Legacy.ordersKey contact_type contact_info in
  let request := Legacy.orders_request (Legacy.Date_now (Legacy.world st))
                                       contact_type contact_info in
  let value := Legacy.Summaries (map Legacy.summary (Legacy.data_orders r)) in
  NodeCache.options (Legacy.cache st) = Legacy.cache_options ->
  NodeCache.get key (Legacy.Date_now (Legacy.world st)) (Legacy.cache st) = (c1, None) ->
  Legacy.shopifyApi_get request (Legacy.world st) = (w2, Done r) ->
  snd (Legacy.get_orders contact_type contact_info st) = Done (Legacy.json value) /\
  Legacy.trace (fst (Legacy.get_orders contact_type contact_info st)) =
    Legacy.trace st ++ [Legacy.CacheGet key; Legacy.Get request; Legacy.CacheSet key] /\
  forall (w : World) (tr : list Legacy.Event),
    Legacy.Date_now w <= Legacy.Date_now w2 + 3600000 ->
    Legacy.get_orders contact_type contact_info
      {| Legacy.world := w;
         Legacy.cache := Legacy.cache (fst (Legacy.get_orders contact_type contact_info st));
         Legacy.trace := tr |} =
    ({| Legacy.world := w;
        Legacy.cache := Legacy.cache (fst (Legacy.get_orders contact_type contact_info st));
        Legacy.trace := tr ++ [Legacy.CacheGet key] |},
     Done (Legacy.json value)).
Proof.
  intros key request value Ho Hmiss Hget.
  destruct (legacy_orders_stored contact_type contact_info st c1 w2 r Ho Hmiss Hget)
    as [Hrun Hentry].
  fold key request value in Hrun, Hentry. rewrite Hrun. cbn [fst snd Legacy.cache Legacy.trace].
  split; [reflexivity |]. split; [reflexivity |].
  intros w tr Hnow.
  apply (legacy_orders_hit contact_type contact_info
           {| Legacy.world := w; Legacy.cache := _; Legacy.trace := tr |} _ Hentry).
  right. simpl. exact Hnow.
Qed.

Lemma legacy_orders_are_stored_and_served_witness :
  let value := Legacy.Summaries [Legacy.summary Legacy.order1001] in
  snd (Legacy.get_orders "email" "a@example.com" Legacy.start) = Done (Legacy.json value) /\
  Legacy.get_orders "email" "a@example.com"
    {| Legacy.world := Legacy.new_year + 3600100;
       Legacy.cache := Legacy.cache (fst (Legacy.get_orders "email" "a@example.com"
                                            Legacy.start));
       Legacy.trace := [] |} =
    ({| Legacy.world := Legacy.new_year + 3600100;
        Legacy.cache := Legacy.cache (fst (Legacy.get_orders "email" "a@example.com"
                                             Legacy.start));
        Legacy.trace := [Legacy.CacheGet "email-a@example.com"] |},
     Done (Legacy.json value)).
Proof.
  destruct (legacy_orders_are_stored_and_served
              "email" "a@example.com" Legacy.start Legacy.empty_cache
              (Legacy.new_year + 100) {| Legacy.data_orders := [Legacy.order1001] |})
    as (Hsent & _ & Hagain).
  - reflexivity.
  - vm_compute. reflexivity.
  - vm_compute. reflexivity.
  - split; [exact Hsent |].
    apply (Hagain (Legacy.new_year + 3600100) []). vm_compute. discriminate.
Defined.

(** X19. [/get_order_details] answers with the details of the first order
    of the response and stores them under "order-details-" and the order
    number; the same request, at any moment up to 3600 seconds after the
    write, gets the same details from the store without an upstream call.
    *)
Theorem order_details_are_stored_and_served {World : Type} `{!Legacy.Shop World}
        (order_number : string)
        (st : Legacy.State World) (c1 : NodeCache.Cache Legacy.Value)
        (w2 : World) (r : Legacy.Response) (order : Legacy.Order)
        (others : list Legacy.Order) :
  let key := String.append "order-details-" order_number in
  let request := Legacy.details_request order_number in
  let value := Legacy.OrderDetails (Legacy.details order) in
  NodeCache.options (Legacy.cache st) = Legacy.cache_options ->
  NodeCache.get key (Legacy.Date_now (Legacy.world st)) (Legacy.cache st) = (c1, None) ->
  Legacy.shopifyApi_get request (Legacy.world st) = (w2, Done r) ->
  Legacy.data_orders r = order :: others ->
  snd (Legacy.get_order_details order_number st) = Done (Legacy.json value) /\
  Legacy.trace (fst (Legacy.get_order_details order_number st)) =
    Legacy.trace st ++ [Legacy.CacheGet key; Legacy.Get request; Legacy.CacheSet key] /\
  forall (w : World) (tr : list Legacy.Event),
    Legacy.Date_now w <= Legacy.Date_now w2 + 3600000 ->
    Legacy.get_order_details order_number
      {| Legacy.world := w;
         Legacy.cache := Legacy.cache (fst (Legacy.get_order_details order_number st));
         Legacy.trace := tr |} =
    ({| Legacy.world := w;
        Legacy.cache := Legacy.cache (fst (Legacy.get_order_details order_number st));
        Legacy.trace := tr ++ [Legacy.CacheGet key] |},
     Done (Legacy.json value)).
Proof.
  intros key request value Ho Hmiss Hget Hfirst.
  destruct (legacy_details_stored order_number st c1 w2 r order others
              Ho Hmiss Hget Hfirst) as [Hrun Hentry].
  fold request value in Hrun, Hentry.
  change (Legacy.detailsKey order_number) with key in Hrun, Hentry.
  rewrite Hrun. cbn [fst snd Legacy.cache Legacy.trace].
  split; [reflexivity |]. split; [reflexivity |].
  intros w tr Hnow.
  apply (legacy_details_hit order_number
           {| Legacy.world := w; Legacy.cache := _; Legacy.trace := tr |} _ Hentry).
  right. simpl. exact Hnow.
Qed.

Lemma order_details_are_stored_and_served_witness :
  snd (Legacy.get_order_details "1001" Legacy.start) =
    Done (Legacy.json (Legacy.OrderDetails (Legacy.details Legacy.order1001))) /\
  Legacy.trace (fst (Legacy.get_order_details "1001" Legacy.start)) =
    [Legacy.CacheGet "order-details-1001";
     Legacy.Get (Legacy.details_request "1001");
     Legacy.CacheSet "order-details-1001"].
Proof.
  destruct (order_details_are_stored_and_served
              "1001" Legacy.start Legacy.empty_cache (Legacy.new_year + 100)
              {| Legacy.data_orders := [Legacy.order1001] |} Legacy.order1001 [])
    as (Hsent & Htrace & _).
  - reflexivity.
  - vm_compute. reflexivity.
  - vm_compute. reflexivity.
  - reflexivity.
  - split; [exact Hsent | exact Htrace].
Defined.

(** X20. When the response holds no order, [/get_order_details] answers
    404 "Order not found" and writes nothing: the key is not in the store
    afterwards, so the same request asks the shop again. *)
Theorem missing_order_is_404_and_not_stored {World : Type} `{!Legacy.Shop World}
        (order_number : string)
        (st : Legacy.State World) (c1 : NodeCache.Cache Legacy.Value)
        (w2 : World) (r : Legacy.Response) :
  let key := String.append "order-details-" order_number in
  let request := Legacy.details_request order_number in
  NodeCache.get key (Legacy.Date_now (Legacy.world st)) (Legacy.cache st) = (c1, None) ->
  Legacy.shopifyApi_get request (Legacy.world st) = (w2, Done r) ->
  Legacy.data_orders r = [] ->
  Legacy.get_order_details order_number st =
    ({| Legacy.world := w2; Legacy.cache := c1;
        Legacy.trace := Legacy.trace st ++ [Legacy.CacheGet key; Legacy.Get request] |},
     Done Legacy.not_found) /\
  NodeCache.data c1 !! key = None /\
  forall (w : World) (tr : list Legacy.Event),
    exists more,
      Legacy.trace (fst (Legacy.get_order_details order_number
                           {| Legacy.world := w; Legacy.cache := c1;
                              Legacy.trace := tr |})) =
      tr ++ Legacy.CacheGet key :: Legacy.Get request :: more.
Proof.
  intros key request Hmiss Hget Hnone.
  destruct (any_get_miss _ _ _ _ Hmiss) as [Habsent _].
  split; [| split; [exact Habsent |]].
  - unfold Legacy.get_order_details.
    change (Legacy.detailsKey order_number) with key. rewrite Hmiss. cbv zeta.
    fold request. rewrite Hget, Hnone. simpl. rewrite <- app_assoc. reflexivity.
  - intros w tr. unfold Legacy.get_order_details.
    change (Legacy.detailsKey order_number) with key.
    rewrite (any_get_absent key _ c1 Habsent). cbv zeta. fold request.
    cbn [Legacy.world Legacy.cache Legacy.trace].
    destruct (Legacy.shopifyApi_get request w) as [w3 [r3 | e |]].
    + destruct (Legacy.data_orders r3) as [| order others].
      * exists []. simpl. rewrite <- app_assoc. reflexivity.
      * destruct (NodeCache.set key _ _ c1) as [c3 [b | code]];
          exists [Legacy.CacheSet key]; simpl; rewrite <- !app_assoc; reflexivity.
    + exists []. simpl. rewrite <- app_assoc. reflexivity.
    + exists []. simpl. rewrite <- app_assoc. reflexivity.
Qed.

Lemma missing_order_is_404_and_not_stored_witness :
  Legacy.get_order_details "1002" Legacy.start =
    ({| Legacy.world := Legacy.new_year + 100; Legacy.cache := Legacy.empty_cache;
        Legacy.trace := [Legacy.CacheGet "order-details-1002";
                         Legacy.Get (Legacy.details_request "1002")] |},
     Done Legacy.not_found).
Proof.
  destruct (missing_order_is_404_and_not_stored
              "1002" Legacy.start Legacy.empty_cache (Legacy.new_year + 100)
              {| Legacy.data_orders := [] |}) as (Hrun & _ & _).
  - vm_compute. reflexivity.
  - vm_compute. reflexivity.
  - reflexivity.
  - exact Hrun.
Defined.

(** X21. The two handlers of the second server share one store and their
    keys overlap: once a [/get_orders] request with contact type "order"
    and contact "details-" followed by a number has been stored,
    [/get_order_details] for that number is answered, for the next 3600
    seconds, with that list of summaries instead of order details, and
    without an upstream call. *)
Theorem orders_answer_is_served_as_order_details {World : Type} `{!Legacy.Shop World}
        (order_number : string)
        (st : Legacy.State World) (c1 : NodeCache.Cache Legacy.Value)
        (w2 : World) (r : Legacy.Response) :
  let contact_info := String.append "details-" order_number in
  let key := String.append "order-details-" order_number in
  let request := Legacy.orders_request (Legacy.Date_now (Legacy.world st))
                                       "order" contact_info in
  let value := Legacy.Summaries (map Legacy.summary (Legacy.data_orders r)) in
  NodeCache.options (Legacy.cache st) = Legacy.cache_options ->
  NodeCache.get key (Legacy.Date_now (Legacy.world st)) (Legacy.cache st) = (c1, None) ->
  Legacy.shopifyApi_get request (Legacy.world st) = (w2, Done r) ->
  forall (w : World) (tr : list Legacy.Event),
    Legacy.Date_now w <= Legacy.Date_now w2 + 3600000 ->
    Legacy.get_order_details order_number
      {| Legacy.world := w;
         Legacy.cache := Legacy.cache (fst (Legacy.get_orders "order" contact_info st));
         Legacy.trace := tr |} =
    ({| Legacy.world := w;
        Legacy.cache := Legacy.cache (fst (Legacy.get_orders "order" contact_info st));
        Legacy.trace := tr ++ [Legacy.CacheGet key] |},
     Done (Legacy.json value)).
Proof.
  intros contact_info key request value Ho Hmiss Hget w tr Hnow.
  assert (Hkey : Legacy.ordersKey "order" contact_info = key) by reflexivity.
  destruct (legacy_orders_stored "order" contact_info st c1 w2 r Ho
              ltac:(rewrite Hkey; exact Hmiss) Hget) as [Hrun Hentry].
  rewrite Hkey in Hrun, Hentry. fold request value in Hrun, Hentry.
  rewrite Hrun. cbn [fst Legacy.cache].
  apply (legacy_details_hit order_number
           {| Legacy.world := w; Legacy.cache := _; Legacy.trace := tr |} _ Hentry).
  right. simpl. exact Hnow.
Qed.

Lemma orders_answer_is_served_as_order_details_witness :
  Legacy.get_order_details "1002"
    {| Legacy.world := Legacy.new_year + 200;
       Legacy.cache := Legacy.cache (fst (Legacy.get_orders "order" "details-1002"
                                            Legacy.start));
       Legacy.trace := [] |} =
    ({| Legacy.world := Legacy.new_year + 200;
        Legacy.cache := Legacy.cache (fst (Legacy.get_orders "order" "details-1002"
                                             Legacy.start));
        Legacy.trace := [Legacy.CacheGet "order-details-1002"] |},
     Done (Legacy.json (Legacy.Summaries [Legacy.summary Legacy.order1001]))).
Proof.
  apply (orders_answer_is_served_as_order_details
           "1002" Legacy.start Legacy.empty_cache (Legacy.new_year + 100)
           {| Legacy.data_orders := [Legacy.order1001] |}
           ltac:(reflexivity) ltac:(vm_compute; reflexivity)
           ltac:(vm_compute; reflexivity)
           (Legacy.new_year + 200) []).
  vm_compute. discriminate.
Defined.
